(** * Family tree manager: the graph store, the console manager and the GUI

    A shallow embedding of [tree_manager.py] and [gui_manager.py].

    Both programs are thin layers over Cypher queries sent to a Neo4j
    database.  The database is the only state they share, so the embedding
    has three layers:

    - [Graph]: the store as the queries see it (Person nodes with an open
      property map, typed directed edges, the schema singleton) and the
      meaning of the Cypher clauses that occur in the source;
    - [TreeManager]: the methods of [FamilyTreeManager] and the property
      sub-menu of [config_menu], one definition per Python function;
    - [Gui]: the navigation state of [FamilyTreeApp], the form dialog and
      the composite "add relative" operations.

    Python strings are modelled by [string], through an encoding that keeps
    equality and concatenation (such as UTF-8).  The case mapping and the
    white space of Unicode are not part of the source: [str.upper] and
    [str.strip] are parameters of the functions that call them.  Property
    names are interpolated between backticks in several queries of the
    source; the embedding gives those queries the
    meaning they have for names that contain no backtick. *)

From Stdlib Require Import ZArith Ascii.
From stdpp Require Import gmap strings list fin_maps pretty.

(** ** The graph store *)

Module Graph.

(** Property values that the programs store: strings typed by the user and
    integers ([timestamp()], [genNumber]). *)
Inductive value : Type :=
| VStr (s : string)
| VInt (z : Z).

#[global] Instance value_eq_dec : EqDecision value.
Proof. solve_decision. Defined.

(** A Person node: the identity the database gives it, and its properties. *)
Record node : Type := Node {
  node_ref : nat;
  node_props : gmap string value
}.

#[global] Instance node_eq_dec : EqDecision node.
Proof. solve_decision. Defined.

(** A relationship [(src)-[:type]->(dst)] between node identities. *)
Record edge : Type := Edge {
  edge_src : nat;
  edge_type : string;
  edge_dst : nat
}.

#[global] Instance edge_eq_dec : EqDecision edge.
Proof. solve_decision. Defined.

(** The [:Schema {id: "person_schema"}] node.  A list property that is not
    set reads as [null]. *)
Record schema_node : Type := SchemaNode {
  s_keys : option (list string);
  s_mandatory_keys : option (list string)
}.

Record db : Type := Db {
  persons : list node;
  rels : list edge;
  schema : option schema_node;
  next_ref : nat
}.

Definition empty_db : db := Db [] [] None 0.

Definition with_persons (ps : list node) (d : db) : db :=
  Db ps (rels d) (schema d) (next_ref d).

Definition with_rels (rs : list edge) (d : db) : db :=
  Db (persons d) rs (schema d) (next_ref d).

Definition with_schema (s : option schema_node) (d : db) : db :=
  Db (persons d) (rels d) s (next_ref d).

(** [p.id], [null] when the property is not set. *)
Definition node_id (n : node) : option value := node_props n !! "id".

(** The node pattern [(p:Person {id: $id})].  A [null] parameter matches
    nothing. *)
Definition has_id (idv : option value) (n : node) : Prop :=
  is_Some idv ∧ node_id n = idv.

#[global] Instance has_id_dec idv n : Decision (has_id idv n).
Proof. unfold has_id. apply _. Defined.

(** [MATCH (p:Person {id: $id})]: the rows, in store order. *)
Definition match_person (idv : option value) (d : db) : list node :=
  filter (has_id idv) (persons d).

Definition node_at (r : nat) (d : db) : list node :=
  filter (λ n, node_ref n = r) (persons d).

(** [SET p = f(p)] on the nodes selected by [sel]. *)
Definition set_where (sel : node → Prop) `{∀ n, Decision (sel n)}
    (f : gmap string value → gmap string value) (d : db) : db :=
  with_persons
    ((λ n, if decide (sel n) then Node (node_ref n) (f (node_props n)) else n)
       <$> persons d) d.

(** [CREATE (p:Person ...)] with the given properties. *)
Definition create_person (ps : gmap string value) (d : db) : db :=
  Db (persons d ++ [Node (next_ref d) ps]) (rels d) (schema d) (S (next_ref d)).

(** [MERGE (a)-[:t]->(b)] for one row [(a, b)]: the edge is created only
    when no edge of that type and direction is there. *)
Definition merge_rel (t : string) (rs : list edge) (ab : node * node) : list edge :=
  let e := Edge (node_ref ab.1) t (node_ref ab.2) in
  if decide (e ∈ rs) then rs else rs ++ [e].

(** [MERGE (a)-[:t]-(b)]: an edge in either direction matches; a missing
    edge is created from left to right. *)
Definition merge_rel_undirected (t : string) (rs : list edge) (ab : node * node) : list edge :=
  let e := Edge (node_ref ab.1) t (node_ref ab.2) in
  let e' := Edge (node_ref ab.2) t (node_ref ab.1) in
  if decide (e ∈ rs ∨ e' ∈ rs) then rs else rs ++ [e].

(** [MATCH (a:Person {id: $x}), (b:Person {id: $y})]: the cartesian
    product of the two matches. *)
Definition match_pairs (x y : option value) (d : db) : list (node * node) :=
  a ← match_person x d; b ← match_person y d; [(a, b)].

(** [MATCH (a:Person {id: $x}), (b:Person {id: $y}) MERGE (a)-[:t]->(b)]. *)
Definition merge_between (x y : option value) (t : string) (d : db) : db :=
  with_rels (foldl (merge_rel t) (rels d) (match_pairs x y d)) d.

(** The three relationship patterns the programs use between two nodes. *)
Inductive pattern : Type :=
| Outgoing (t : string)    (* -[:t]-> *)
| Incoming (t : string)    (* <-[:t]- *)
| Either (t : string).     (* -[:t]-  *)

(** The node at the other end of [e] seen from node [r] along [pat]. *)
Definition other_end (pat : pattern) (r : nat) (e : edge) : option nat :=
  match pat with
  | Outgoing t =>
      if decide (edge_type e = t ∧ edge_src e = r) then Some (edge_dst e) else None
  | Incoming t =>
      if decide (edge_type e = t ∧ edge_dst e = r) then Some (edge_src e) else None
  | Either t =>
      if decide (edge_type e = t ∧ edge_src e = r) then Some (edge_dst e)
      else if decide (edge_type e = t ∧ edge_dst e = r) then Some (edge_src e)
      else None
  end.

(** [MATCH (p:Person {id: $id}) pat (q:Person) RETURN q]: one row per
    matching path. *)
Definition match_path_from (p : node) (pat : pattern) (d : db) : list node :=
  e ← rels d;
  match other_end pat (node_ref p) e with
  | Some r => node_at r d
  | None => []
  end.

Definition match_path (idv : option value) (pat : pattern) (d : db) : list node :=
  p ← match_person idv d; match_path_from p pat d.

(** Stores the database can hold after any run of the programs: node
    identities are distinct and below the next free one, relationships
    join allocated identities, and no relationship is recorded twice
    (the programs create relationships with [MERGE] only). *)
Definition wf (d : db) : Prop :=
  NoDup (node_ref <$> persons d) ∧
  Forall (λ n, node_ref n < next_ref d) (persons d) ∧
  NoDup (rels d) ∧
  Forall (λ e, edge_src e < next_ref d ∧ edge_dst e < next_ref d) (rels d).

#[global] Instance wf_dec d : Decision (wf d).
Proof. unfold wf. apply _. Defined.

(** What an action reports to the user. *)
Inductive outcome : Type :=
| Silent                          (* returns without a message *)
| Success (message : string)      (* a printed confirmation, an info box *)
| Warning (title : string)        (* a warning box *)
| Rejected (message : string)     (* a printed error, an error box *)
| Raised (exception : string).    (* an exception leaves the handler *)

(** Python's truth value of a property value. *)
Definition truthy (v : value) : bool :=
  match v with
  | VStr s => negb (String.eqb s "")
  | VInt z => negb (Z.eqb z 0)
  end.

(** [str(v)] as an f-string renders it, for a value read from the store. *)
Definition py_str (o : option value) : string :=
  match o with
  | Some (VStr s) => s
  | Some (VInt z) => pretty z
  | None => "None"
  end.

End Graph.

(** ** tree_manager.py *)

Module TreeManager.
Import Graph.

Definition MANAGED_PROPERTIES : list string := ["id"; "created_at"].
Definition DEFAULT_KEYS : list string :=
  ["firstName"; "lastName"; "gender"; "dob"; "dod"].
Definition DEFAULT_MANDATORY_KEYS : list string :=
  ["firstName"; "lastName"; "gender"; "dob"].

(** [MERGE (s:Schema {id: "person_schema"}) ON CREATE SET s.keys = ...,
    s.mandatory_keys = ...] *)
Definition _ensure_schema_node_exists (d : db) : db :=
  match schema d with
  | Some _ => d
  | None =>
      with_schema
        (Some (SchemaNode (Some DEFAULT_KEYS) (Some DEFAULT_MANDATORY_KEYS))) d
  end.

(** [FamilyTreeManager.__init__] on a connected driver. *)
Definition init (d : db) : db := _ensure_schema_node_exists d.

Definition get_person_schema (d : db) : list string :=
  match schema d with
  | Some s => match s_keys s with Some ks => ks | None => DEFAULT_KEYS end
  | None => DEFAULT_KEYS
  end.

Definition get_mandatory_keys (d : db) : list string :=
  match schema d with
  | Some s =>
      match s_mandatory_keys s with Some ks => ks | None => DEFAULT_MANDATORY_KEYS end
  | None => DEFAULT_MANDATORY_KEYS
  end.

(** [MERGE (p:Person {id: $person_id}) ON CREATE SET p.created_at =
    timestamp() SET p += $properties]; [now] is what [timestamp()]
    returns. *)
Definition add_person (now : Z) (person_id : string)
    (properties : gmap string value) (d : db) : db :=
  match match_person (Some (VStr person_id)) d with
  | [] =>
      create_person
        (properties ∪ <["created_at" := VInt now]> {["id" := VStr person_id]}) d
  | _ :: _ =>
      set_where (has_id (Some (VStr person_id))) (λ ps, properties ∪ ps) d
  end.

Definition remove_all (names : list string) (ps : gmap string value) :
    gmap string value :=
  foldr delete ps names.

(** [MATCH (p:Person {id: $id}) SET p += $props_to_set REMOVE p.`k`, ...] *)
Definition update_person (person_id : string) (props_to_set : gmap string value)
    (props_to_remove : list string) (d : db) : outcome * db :=
  if decide (props_to_set = ∅ ∧ props_to_remove = []) then (Silent, d)
  else
    (Success "updated",
     set_where (has_id (Some (VStr person_id)))
       (λ ps, remove_all props_to_remove (props_to_set ∪ ps)) d).

Definition find_person (person_id : string) (d : db) : option (gmap string value) :=
  node_props <$> head (match_person (Some (VStr person_id)) d).

Definition find_relatives (person_id : string) (relationship_pattern : pattern)
    (d : db) : list node :=
  match_path (Some (VStr person_id)) relationship_pattern d.

(** [MATCH (p:Person {id: $person_id}) DETACH DELETE p] *)
Definition delete_person (person_id : string) (d : db) : db :=
  let gone := node_ref <$> match_person (Some (VStr person_id)) d in
  Db (filter (λ n, node_ref n ∉ gone) (persons d))
     (filter (λ e, (edge_src e ∉ gone) ∧ (edge_dst e ∉ gone)) (rels d))
     (schema d) (next_ref d).

Definition valid_rels : list string := ["CHILD_OF"; "SPOUSE_OF"].

Section relationships.

(** Python's [str.upper]. *)
Variable upper : string → string.

Definition add_relationship (id1 id2 rel_type : string) (d : db) : outcome * db :=
  if decide (upper rel_type ∈ valid_rels) then
    (Success "linked",
     merge_between (Some (VStr id1)) (Some (VStr id2)) (upper rel_type) d)
  else (Rejected "Invalid relationship type", d).

End relationships.

(** [WHERE NOT $key IN l SET l = l + $key]; on a [null] list the
    predicate is [null] and the row is dropped. *)
Definition append_if_absent (key : string) (l : option (list string)) :
    option (list string) :=
  match l with
  | Some ks => if decide (key ∈ ks) then Some ks else Some (ks ++ [key])
  | None => None
  end.

Definition on_schema (f : schema_node → schema_node) (d : db) : db :=
  with_schema (f <$> schema d) d.

Definition add_property_key (key : string) (is_mandatory : bool)
    (default_value : value) (d : db) : db :=
  let d1 :=
    on_schema (λ s, SchemaNode (append_if_absent key (s_keys s)) (s_mandatory_keys s)) d in
  let d2 :=
    if is_mandatory then
      on_schema
        (λ s, SchemaNode (s_keys s) (append_if_absent key (s_mandatory_keys s))) d1
    else d1 in
  set_where (λ _, True) (λ ps, <[key := default_value]> ps) d2.

(** [[new_key if k == old_key else k for k in keys]] *)
Definition renamed (old_key new_key : string) (keys : list string) : list string :=
  (λ k, if decide (k = old_key) then new_key else k) <$> keys.

(** [SET p.`new` = p.`old` REMOVE p.`old`] on one property map in which
    [old] is set. *)
Definition move_property (old_key new_key : string) (ps : gmap string value) :
    gmap string value :=
  match ps !! old_key with
  | Some v => delete old_key (<[new_key := v]> ps)
  | None => ps
  end.

Definition rename_property_key (old_key new_key : string) (d : db) : db :=
  let all_keys := get_person_schema d in
  let d1 :=
    if decide (old_key ∈ all_keys) then
      on_schema
        (λ s, SchemaNode (Some (renamed old_key new_key all_keys)) (s_mandatory_keys s)) d
    else d in
  let mandatory_keys := get_mandatory_keys d1 in
  let d2 :=
    if decide (old_key ∈ mandatory_keys) then
      on_schema
        (λ s, SchemaNode (s_keys s) (Some (renamed old_key new_key mandatory_keys))) d1
    else d1 in
  set_where (λ n, is_Some (node_props n !! old_key))
    (move_property old_key new_key) d2.

(** [[k IN l WHERE k <> $key]]; [null] stays [null]. *)
Definition without (key : string) (l : option (list string)) : option (list string) :=
  filter (λ k, k ≠ key) <$> l.

Definition delete_property_key (key : string) (d : db) : db :=
  let d1 :=
    on_schema
      (λ s, SchemaNode (without key (s_keys s)) (without key (s_mandatory_keys s))) d in
  set_where (λ _, True) (delete key) d1.

(** What the user enters in one round of [config_menu]. *)
Inductive config_choice : Type :=
| AddProperty (key : string) (is_mandatory : bool) (default : string)   (* '1' *)
| RenameProperty (old_key new_key : string)                              (* '2' *)
| DeleteProperty (key : string) (sure : bool)                            (* '3' *)
| BackToMain                                                             (* '4' *)
| OtherChoice.

(** One round of the loop of [config_menu]. *)
Definition config_round (c : config_choice) (d : db) : outcome * db :=
  match c with
  | AddProperty key is_mandatory default =>
      if decide (key ∈ MANAGED_PROPERTIES) then
        (Rejected "managed property", d)
      else (Success "added", add_property_key key is_mandatory (VStr default) d)
  | RenameProperty old_key new_key =>
      (Success "renamed", rename_property_key old_key new_key d)
  | DeleteProperty key sure =>
      if sure then (Success "deleted", delete_property_key key d)
      else (Success "Deletion cancelled", d)
  | BackToMain => (Silent, d)
  | OtherChoice => (Rejected "Invalid option", d)
  end.

(** [config_menu]: rounds until the user chooses to go back. *)
Fixpoint config_menu (cs : list config_choice) (d : db) : db :=
  match cs with
  | [] => d
  | BackToMain :: _ => d
  | c :: cs' => config_menu cs' (config_round c d).2
  end.

(** *** The console menus

    [lines] is what the user types, one entry per call of [input()]; when
    it is used up [input()] raises [EOFError], which ends the menu (the
    result is then [None] and nothing has been sent to the database). *)

Section console.

(** Python's [str.strip] and [str.upper]. *)
Variable strip : string → string.
Variable upper : string → string.

(** [get_input(prompt, required)]: asks until the stripped answer is not
    empty, or at once accepts any answer when nothing is required. *)
Fixpoint get_input (required : bool) (lines : list string) :
    option (string * list string) :=
  match lines with
  | [] => None
  | line :: rest =>
      let value := strip line in
      if orb (negb (String.eqb value "")) (negb required) then Some (value, rest)
      else get_input required rest
  end.

(** The loop of [add_person_menu] over the schema. *)
Fixpoint ask_properties (schema mandatory_keys : list string)
    (properties : gmap string value) (lines : list string) :
    option (gmap string value * list string) :=
  match schema with
  | [] => Some (properties, lines)
  | prop :: schema' =>
      let is_req := bool_decide (prop ∈ mandatory_keys) in
      match get_input is_req lines with
      | None => None
      | Some (value, rest) =>
          ask_properties schema' mandatory_keys
            (if String.eqb value "" then properties
             else <[prop := VStr value]> properties)
            rest
      end
  end.

Definition add_person_menu (now : Z) (lines : list string) (d : db) :
    option (db * list string) :=
  match get_input true lines with
  | None => None
  | Some (person_id, rest) =>
      match ask_properties (get_person_schema d) (get_mandatory_keys d) ∅ rest with
      | None => None
      | Some (properties, rest') =>
          Some (add_person now person_id properties d, rest')
      end
  end.

(** The loop of [modify_person_menu] over the schema: what to set and what
    to remove. *)
Fixpoint ask_changes (schema mandatory_keys : list string)
    (person : gmap string value) (props_to_set : gmap string value)
    (props_to_remove : list string) (lines : list string) :
    option (gmap string value * list string * list string) :=
  match schema with
  | [] => Some (props_to_set, props_to_remove, lines)
  | prop :: schema' =>
      let is_req := bool_decide (prop ∈ mandatory_keys) in
      let current_value := default (VStr "") (person !! prop) in
      match get_input is_req lines with
      | None => None
      | Some (new_val, rest) =>
          if decide (VStr new_val = current_value) then
            ask_changes schema' mandatory_keys person props_to_set props_to_remove rest
          else if negb (String.eqb new_val "") then
            ask_changes schema' mandatory_keys person
              (<[prop := VStr new_val]> props_to_set) props_to_remove rest
          else if negb is_req then
            ask_changes schema' mandatory_keys person props_to_set
              (props_to_remove ++ [prop]) rest
          else
            ask_changes schema' mandatory_keys person props_to_set props_to_remove rest
      end
  end.

Definition modify_person_menu (lines : list string) (d : db) :
    option (outcome * db * list string) :=
  match get_input true lines with
  | None => None
  | Some (person_id, rest) =>
      match find_person person_id d with
      | None => Some (Rejected "Person not found", d, rest)
      | Some person =>
          match ask_changes (get_person_schema d) (get_mandatory_keys d) person ∅ []
                  rest with
          | None => None
          | Some (props_to_set, props_to_remove, rest') =>
              let r := update_person person_id props_to_set props_to_remove d in
              Some (r.1, r.2, rest')
          end
      end
  end.

Definition relationship_menu (lines : list string) (d : db) :
    option (outcome * db * list string) :=
  match get_input true lines with
  | None => None
  | Some (id1, rest1) =>
      match get_input true rest1 with
      | None => None
      | Some (id2, rest2) =>
          match get_input true rest2 with
          | None => None
          | Some (rel_type, rest3) =>
              let r := add_relationship upper id1 id2 rel_type d in
              Some (r.1, r.2, rest3)
          end
      end
  end.

End console.

End TreeManager.

(** ** gui_manager.py *)

Module Gui.
Import Graph.

(** *** Navigation state of [FamilyTreeApp] *)

Inductive mode : Type := generation | children.

(** [view_context_id]: the number [1] in the top-generation view, a parent
    id in a children view. *)
Inductive context_id : Type :=
| Gen (n : Z)
| Pid (id : string).

Record app : Type := App {
  current_person_id : option string;
  view_mode : mode;
  view_context_id : context_id;
  history : list (mode * context_id);
  person_buttons : bool;   (* add child/sibling/spouse, modify, view children *)
  back_button : bool
}.

(** The fields as [__init__] sets them; the buttons are created disabled. *)
Definition initial : app := App None generation (Gen 1) [] false false.

Definition reset_buttons (a : app) : app :=
  App None (view_mode a) (view_context_id a) (history a) false (back_button a).

Definition _display_top_gen_internal (a : app) : app :=
  reset_buttons
    (App (current_person_id a) generation (Gen 1) (history a)
       (person_buttons a) (back_button a)).

Definition _display_children_internal (parent_id : context_id) (a : app) : app :=
  reset_buttons
    (App (current_person_id a) children parent_id (history a)
       (person_buttons a) (back_button a)).

Definition _load_view (m : mode) (context : context_id) (add_to_history : bool)
    (a : app) : app :=
  let a1 :=
    if add_to_history then
      App (current_person_id a) (view_mode a) (view_context_id a)
        (history a ++ [(view_mode a, view_context_id a)])
        (person_buttons a) (back_button a)
    else a in
  let a2 :=
    match m with
    | children => _display_children_internal context a1
    | generation => _display_top_gen_internal a1
    end in
  App (current_person_id a2) (view_mode a2) (view_context_id a2) (history a2)
    (person_buttons a2) (bool_decide (history a2 ≠ [])).

(** [selection] is the id shown in the selected row, if a row is selected. *)
Definition on_person_select (selection : option string) (a : app) : app :=
  match selection with
  | None => reset_buttons a
  | Some id =>
      App (Some id) (view_mode a) (view_context_id a) (history a) true (back_button a)
  end.

(** [if not self.current_person_id: return] *)
Definition selected (a : app) : option string :=
  match current_person_id a with
  | Some id => if decide (id = "") then None else Some id
  | None => None
  end.

Definition view_children (a : app) : app :=
  match selected a with
  | None => a
  | Some id => _load_view children (Pid id) true a
  end.

Definition go_to_top_generation (a : app) : app :=
  _load_view generation (Gen 1) false
    (App (current_person_id a) (view_mode a) (view_context_id a) []
       (person_buttons a) (back_button a)).

(** [list.pop()]: the last element and the list without it. *)
Fixpoint pop {A : Type} (l : list A) : option (list A * A) :=
  match l with
  | [] => None
  | x :: l' =>
      match pop l' with
      | None => Some ([], x)
      | Some (rest, y) => Some (x :: rest, y)
      end
  end.

Definition go_back (a : app) : app :=
  match pop (history a) with
  | None => a
  | Some (rest, (prev_mode, prev_context_id)) =>
      _load_view prev_mode prev_context_id false
        (App (current_person_id a) (view_mode a) (view_context_id a) rest
           (person_buttons a) (back_button a))
  end.

Definition refresh_current_view (a : app) : app :=
  _load_view (view_mode a) (view_context_id a) false a.

(** [initialize_main_app] ends with [go_to_top_generation]. *)
Definition initialize_main_app : app := go_to_top_generation initial.

(** What the user can do to the navigation state. *)
Inductive event : Type :=
| Select (selection : option string)
| ViewChildren
| GoBack
| GoToTop
| Refresh.

Definition handle (ev : event) (a : app) : app :=
  match ev with
  | Select sel => on_person_select sel a
  | ViewChildren => view_children a
  | GoBack => go_back a
  | GoToTop => go_to_top_generation a
  | Refresh => refresh_current_view a
  end.

(** States the running application can be in. *)
Inductive reachable : app → Prop :=
| reachable_start : reachable initialize_main_app
| reachable_step ev a : reachable a → reachable (handle ev a).

(** *** The navigation states in the words of the specification *)

Inductive view : Type :=
| ROOT
| CHILDREN (parentId : string).

Definition view_of (m : mode) (c : context_id) : option view :=
  match m, c with
  | generation, Gen 1 => Some ROOT
  | children, Pid id => Some (CHILDREN id)
  | _, _ => None
  end.

Record nav : Type := Nav {
  current : view;
  stack : list view
}.

Definition nav_initial : nav := Nav ROOT [].

(** "pushes the current (mode, context) and transitions to
    CHILDREN(selectedId)" *)
Definition nav_view_children (selectedId : string) (n : nav) : nav :=
  Nav (CHILDREN selectedId) (stack n ++ [current n]).

(** "pops the history stack and redisplays the popped state without
    re-pushing" *)
Definition nav_go_back (n : nav) : nav :=
  match pop (stack n) with
  | None => n
  | Some (rest, v) => Nav v rest
  end.

(** "clears the entire history and transitions to ROOT" *)
Definition nav_go_to_top (n : nav) : nav := Nav ROOT [].

(** The specification's reading of an application state. *)
Definition abstraction (a : app) : option nav :=
  v ← view_of (view_mode a) (view_context_id a);
  st ← mapM (λ mc, view_of mc.1 mc.2) (history a);
  Some (Nav v st).

(** *** The form dialog and the composite operations *)

Inductive relationship : Type := child | sibling | spouse.

(** What the user does with an open [PersonFormDialog]: close it, or fill
    the entries and press Submit.  [typed] is the text of each entry
    (empty when absent) and [asked_id] the answer to the id prompt shown
    for a spouse.  A submit that stops on an error leaves the dialog open
    with [result] already assigned; the user then closes it. *)
Inductive user_action : Type :=
| CloseDialog
| Submit (typed : gmap string string) (asked_id : option string).

Definition get_schema_details (d : db) : option (list string * list string) :=
  s ← schema d;
  Some (default [] (s_keys s), default [] (s_mandatory_keys s)).

(** [[prop for prop in schema if prop != 'genNumber']] *)
Definition form_schema (schema : list string) : list string :=
  filter (λ prop, prop ≠ "genNumber") schema.

Definition entry_text (typed : gmap string string) (prop : string) : string :=
  default "" (typed !! prop).

(** The loop of [submit] over the entries: [genNumber] as an integer (the
    entry is read-only and holds [str(gen_number)]), the others as text. *)
Definition entries_result (schema : list string) (gen_number : Z)
    (typed : gmap string string) : gmap string value :=
  foldl (λ res prop, <[prop := VStr (entry_text typed prop)]> res)
    {["genNumber" := VInt gen_number]} (form_schema schema).

(** [PersonFormDialog.submit]: the value of [self.result] when it ends. *)
Definition submit (relationship_type : option relationship)
    (related_person_id : string) (schema : list string) (gen_number : Z)
    (typed : gmap string string) (asked_id : option string) (d : db) :
    gmap string value :=
  let result := entries_result schema gen_number typed in
  match relationship_type with
  | Some (child as rel) | Some (sibling as rel) =>
      if decide ("childNumber" ∈ form_schema schema) then
        let child_num := entry_text typed "childNumber" in
        if decide (child_num = "") then result
        else
          match rel with
          | sibling =>
              match match_path (Some (VStr related_person_id))
                      (Outgoing "CHILD_OF") d with
              | [] => result
              | p :: _ =>
                  <["id" := VStr (py_str (node_id p) +:+ "_" +:+ child_num)]> result
              end
          | _ => <["id" := VStr (related_person_id +:+ "_" +:+ child_num)]> result
          end
      else result
  | Some spouse =>
      match asked_id with
      | Some s => <["id" := VStr s]> result
      | None => delete "id" result
      end
  | None => result
  end.

(** [dialog.result] once the dialog is closed. *)
Definition dialog_result (relationship_type : option relationship)
    (related_person_id : string) (schema : list string) (gen_number : Z)
    (action : user_action) (d : db) : option (gmap string value) :=
  match action with
  | CloseDialog => None
  | Submit typed asked_id =>
      Some (submit relationship_type related_person_id schema gen_number
              typed asked_id d)
  end.

(** [for parent_id in parent_ids: MATCH (c:Person {id: $child_id}),
    (p:Person {id: $parent_id}) MERGE (c)-[:CHILD_OF]->(p)] *)
Definition link_to_parents (child_id : option value)
    (parent_ids : list (option value)) (d : db) : db :=
  foldl (λ d' parent_id, merge_between child_id parent_id "CHILD_OF" d') d parent_ids.

(** The linking part of [open_person_form], after the new node is
    created. *)
Definition link_new_person (relationship_type : relationship)
    (new_person_id : option value) (related_person_id : string) (d : db) : db :=
  match relationship_type with
  | child =>
      let spouses :=
        match_path (Some (VStr related_person_id)) (Either "SPOUSE_OF") d in
      link_to_parents new_person_id
        (Some (VStr related_person_id) :: (node_id <$> spouses)) d
  | sibling =>
      let parents :=
        match_path (Some (VStr related_person_id)) (Outgoing "CHILD_OF") d in
      link_to_parents new_person_id (node_id <$> parents) d
  | spouse =>
      with_rels
        (foldl (merge_rel_undirected "SPOUSE_OF") (rels d)
           (match_pairs new_person_id (Some (VStr related_person_id)) d))
        d
  end.

Definition open_person_form (relationship_type : relationship)
    (related_person_id : string) (gen_number : Z) (action : user_action)
    (a : app) (d : db) : outcome * app * db :=
  match get_schema_details d with
  | None => (Rejected "Schema Error", a, d)
  | Some (schema, mandatory_keys) =>
      match dialog_result (Some relationship_type) related_person_id schema
              gen_number action d with
      | None => (Silent, a, d)
      | Some result =>
          let new_person_data :=
            filter (λ kv, truthy kv.2 = true ∧ kv.1 ≠ "id") result in
          match result !! "id" with
          | None => (Warning "ID Required", a, d)
          | Some new_person_id =>
              if truthy new_person_id then
                let d1 :=
                  create_person (new_person_data ∪ {["id" := new_person_id]}) d in
                (Success "added", refresh_current_view a,
                 link_new_person relationship_type (Some new_person_id)
                   related_person_id d1)
              else (Warning "ID Required", a, d)
          end
      end
  end.

Section handlers.

(** Python's [int] on a text. *)
Variable int_of_text : string → option Z.

Definition py_int (v : value) : option Z :=
  match v with
  | VInt z => Some z
  | VStr s => int_of_text s
  end.

(** [gen = 1; if records and records[0]["gen"] is not None: gen =
    int(records[0]["gen"])] *)
Definition gen_of (records : list (option value)) : option Z :=
  match records with
  | Some v :: _ => py_int v
  | _ => Some 1%Z
  end.

Definition add_child (action : user_action) (a : app) (d : db) :
    outcome * app * db :=
  match selected a with
  | None => (Silent, a, d)
  | Some id =>
      let records :=
        (λ p, node_props p !! "genNumber") <$> match_person (Some (VStr id)) d in
      match gen_of records with
      | None => (Raised "ValueError", a, d)
      | Some parent_gen => open_person_form child id (parent_gen + 1) action a d
      end
  end.

Definition add_sibling (action : user_action) (a : app) (d : db) :
    outcome * app * db :=
  match selected a with
  | None => (Silent, a, d)
  | Some id =>
      let records :=
        p ← match_person (Some (VStr id)) d;
        (λ _, node_props p !! "genNumber") <$> match_path_from p (Outgoing "CHILD_OF") d in
      match records with
      | [] => (Rejected "Cannot Add Sibling", a, d)
      | _ :: _ =>
          match gen_of records with
          | None => (Raised "ValueError", a, d)
          | Some sibling_gen => open_person_form sibling id sibling_gen action a d
          end
      end
  end.

Definition add_spouse (action : user_action) (a : app) (d : db) :
    outcome * app * db :=
  match selected a with
  | None => (Silent, a, d)
  | Some id =>
      let records :=
        (λ p, node_props p !! "genNumber") <$> match_person (Some (VStr id)) d in
      match gen_of records with
      | None => (Raised "ValueError", a, d)
      | Some spouse_gen => open_person_form spouse id spouse_gen action a d
      end
  end.

(** [modify_person]: the form shows the person's data; on submit the
    entries that hold a value are set and the empty ones, [genNumber]
    apart, are removed.  The [genNumber] entry holds [str] of the stored
    value (1 when there is none) and [submit] reads it back with [int]. *)
Definition modify_person (action : user_action) (a : app) (d : db) :
    outcome * app * db :=
  match selected a with
  | None => (Silent, a, d)
  | Some id =>
      match match_person (Some (VStr id)) d with
      | [] => (Rejected "Error", a, d)
      | p :: _ =>
          match get_schema_details d, action with
          | None, _ => (Rejected "Schema Error", a, d)
          | Some _, CloseDialog => (Silent, a, d)
          | Some (schema, mandatory_keys), Submit typed _ =>
              match py_int (default (VInt 1) (node_props p !! "genNumber")) with
              | None => (Rejected "Invalid Input", a, d)
              | Some gen_number =>
                  let updated_data := entries_result schema gen_number typed in
                  let props_to_set :=
                    filter (λ kv, truthy kv.2 = true) updated_data in
                  let props_to_remove :=
                    filter (λ kv, truthy kv.2 = false ∧ kv.1 ≠ "genNumber")
                      updated_data in
                  (Success "updated", refresh_current_view a,
                   set_where (has_id (Some (VStr id)))
                     (λ ps, filter (λ kv, kv.1 ∉ dom props_to_remove)
                              (props_to_set ∪ ps)) d)
              end
          end
      end
  end.

End handlers.

End Gui.

Import Graph TreeManager Gui.

(** ** Observations used in the statements *)

(** The keys and mandatory keys of an initialized schema record. *)
Definition initialized (d : db) (keys mandatory : list string) : Prop :=
  schema d = Some (SchemaNode (Some keys) (Some mandatory)).

(** The schema invariant of the specification. *)
Definition schema_invariant (d : db) : Prop :=
  ∃ keys mandatory,
    initialized d keys mandatory ∧
    mandatory ⊆ keys ∧
    (∀ k, k ∈ MANAGED_PROPERTIES → (k ∉ keys) ∧ (k ∉ mandatory)).

(** How many times [k] occurs in a list of keys. *)
Definition occurrences (k : string) (keys : list string) : nat :=
  length (filter (λ k', k' = k) keys).


(** The rows of [find_relatives(a, "-[:SPOUSE_OF]-")] that are person [b]. *)
Definition spouse_rows (a b : string) (d : db) : list node :=
  filter (has_id (Some (VStr b))) (find_relatives a (Either "SPOUSE_OF") d).

(** The relationships that leave the node with identity [r]. *)
Definition edges_from (r : nat) (d : db) : list edge :=
  filter (λ e, edge_src e = r) (rels d).

(** Every way the two programs change the store. *)
Inductive operation : Type :=
| Connect
| AddPerson (now : Z) (person_id : string) (properties : gmap string value)
| UpdatePerson (person_id : string) (props_to_set : gmap string value)
    (props_to_remove : list string)
| DeletePerson (person_id : string)
| AddRelationship (upper : string → string) (id1 id2 rel_type : string)
| Configure (c : config_choice)
| AddRelative (relationship_type : relationship) (related_person_id : string)
    (gen_number : Z) (action : user_action)
| ModifyPerson (int_of_text : string → option Z) (action : user_action) (a : app).

Definition perform (d : db) (op : operation) : db :=
  match op with
  | Connect => init d
  | AddPerson now person_id properties => add_person now person_id properties d
  | UpdatePerson person_id props_to_set props_to_remove =>
      (update_person person_id props_to_set props_to_remove d).2
  | DeletePerson person_id => delete_person person_id d
  | AddRelationship upper id1 id2 rel_type =>
      (add_relationship upper id1 id2 rel_type d).2
  | Configure c => (config_round c d).2
  | AddRelative relationship_type related_person_id gen_number action =>
      (open_person_form relationship_type related_person_id gen_number action
         initial d).2
  | ModifyPerson int_of_text action a => (modify_person int_of_text action a d).2
  end.

(** The stores that runs of the programs produce from an empty database. *)
Definition produced (d : db) : Prop :=
  ∃ ops, d = foldl perform empty_db ops.

(** Every relationship of the store joins two of its Person nodes. *)
Definition closed (d : db) : Prop :=
  Forall
    (λ e, Exists (λ n, node_ref n = edge_src e) (persons d) ∧
          Exists (λ n, node_ref n = edge_dst e) (persons d))
    (rels d).

(** No id is the id of two Person nodes. *)
Definition unique_ids (d : db) : Prop :=
  ∀ idv, length (match_person (Some idv) d) ≤ 1.

(** The kind of relationship the form records for a new relative. *)
Definition link_kind (relationship_type : relationship) : string :=
  match relationship_type with
  | spouse => "SPOUSE_OF"
  | _ => "CHILD_OF"
  end.

(** The ids the form links a new relative to: the selected person and the
    spouses of that person for a child, the parents of the selected person
    for a sibling, the selected person for a spouse. *)
Definition link_targets (relationship_type : relationship)
    (related_person_id : string) (d : db) : list (option value) :=
  match relationship_type with
  | child =>
      Some (VStr related_person_id) ::
      (node_id <$> find_relatives related_person_id (Either "SPOUSE_OF") d)
  | sibling =>
      node_id <$> find_relatives related_person_id (Outgoing "CHILD_OF") d
  | spouse => [Some (VStr related_person_id)]
  end.

(** A property holds a text that is not empty. *)
Definition filled (m : gmap string value) (k : string) : Prop :=
  ∃ s, m !! k = Some (VStr s) ∧ s ≠ "".

(** *** The text methods on ASCII texts

    On a text of ASCII characters [str.upper] maps the letters [a] to [z]
    to [A] to [Z] and [str.strip] removes the characters 9 to 13 and 28 to
    32 at both ends.  The examples are run on such texts, with these two
    functions for the parameters [upper] and [strip]. *)

Definition ascii_upper_char (c : ascii) : ascii :=
  let n := nat_of_ascii c in
  if andb (Nat.leb 97 n) (Nat.leb n 122) then ascii_of_nat (n - 32) else c.

Fixpoint ascii_upper (s : string) : string :=
  match s with
  | EmptyString => EmptyString
  | String c s' => String (ascii_upper_char c) (ascii_upper s')
  end.

Definition ascii_space (c : ascii) : bool :=
  let n := nat_of_ascii c in
  orb (andb (Nat.leb 9 n) (Nat.leb n 13)) (andb (Nat.leb 28 n) (Nat.leb n 32)).

Fixpoint ascii_lstrip (s : string) : string :=
  match s with
  | EmptyString => EmptyString
  | String c s' => if ascii_space c then ascii_lstrip s' else s
  end.

Fixpoint ascii_rstrip (s : string) : string :=
  match s with
  | EmptyString => EmptyString
  | String c s' =>
      match ascii_rstrip s' with
      | EmptyString => if ascii_space c then EmptyString else String c EmptyString
      | t => String c t
      end
  end.

Definition ascii_strip (s : string) : string := ascii_rstrip (ascii_lstrip s).

(** Closes a decidable goal about concrete data by evaluating its decision
    procedure. *)
Ltac by_evaluation :=
  match goal with
  | |- ?P => apply (bool_decide_unpack P); vm_compute; exact I
  end.

(** ** Facts about the store *)

Section store_facts.

Lemma match_person_elem idv n d :
  n ∈ match_person idv d ↔ n ∈ persons d ∧ has_id idv n.
Proof. unfold match_person. rewrite list_elem_of_filter. tauto. Qed.

Lemma match_person_none idv d :
  (∀ n, n ∈ persons d → node_id n ≠ idv) → match_person idv d = [].
Proof.
  intros Hno. unfold match_person.
  induction (persons d) as [|n l IH]; [done|].
  rewrite filter_cons. destruct (decide (has_id idv n)) as [[_ Hid]|_].
  - exfalso. apply (Hno n); [left|done].
  - apply IH. intros m Hm. apply Hno. by right.
Qed.

Lemma match_person_create idv ps d :
  match_person idv (create_person ps d) =
  match_person idv d ++
    (if decide (has_id idv (Node (next_ref d) ps)) then [Node (next_ref d) ps] else []).
Proof. unfold match_person, create_person. simpl. by rewrite filter_app. Qed.

Lemma set_where_persons sel `{∀ n, Decision (sel n)} f d :
  persons (set_where sel f d) =
  (λ n, if decide (sel n) then Node (node_ref n) (f (node_props n)) else n)
    <$> persons d.
Proof. done. Qed.

Lemma set_where_refs sel `{∀ n, Decision (sel n)} f d :
  node_ref <$> persons (set_where sel f d) = node_ref <$> persons d.
Proof.
  rewrite set_where_persons, <- list_fmap_compose.
  apply list_fmap_ext. intros i n _. simpl. by destruct (decide (sel n)).
Qed.

(** A [SET] that keeps the [id] of the nodes it touches does not change
    which rows a match by id returns, only their properties. *)
Lemma match_person_set_where idv sel `{∀ n, Decision (sel n)} f d :
  (∀ n, n ∈ persons d → sel n → f (node_props n) !! "id" = node_props n !! "id") →
  match_person idv (set_where sel f d) =
  (λ n, if decide (sel n) then Node (node_ref n) (f (node_props n)) else n)
    <$> match_person idv d.
Proof.
  intros Hid. unfold match_person. rewrite set_where_persons.
  induction (persons d) as [|n l IH]; [done|].
  rewrite fmap_cons, !filter_cons.
  assert (has_id idv (if decide (sel n) then Node (node_ref n) (f (node_props n)) else n)
          ↔ has_id idv n) as Hiff.
  { destruct (decide (sel n)) as [Hs|]; [|done].
    unfold has_id, node_id. simpl. rewrite Hid; [done|left|done]. }
  rewrite IH by (intros m Hm; apply Hid; by right).
  destruct (decide (has_id idv n)) as [Hn|Hn].
  - rewrite decide_True by (by apply Hiff). by rewrite fmap_cons.
  - rewrite decide_False by (by rewrite Hiff). done.
Qed.

End store_facts.

(** ** The schema store *)

Section schema_facts.

Lemma renamed_absent old_key new_key keys :
  old_key ∉ keys → renamed old_key new_key keys = keys.
Proof.
  intros Hout. unfold renamed. induction keys as [|k ks IH]; [done|].
  rewrite fmap_cons, IH by (intros ?; apply Hout; by right).
  rewrite decide_False; [done|]. intros ->. apply Hout. left.
Qed.

Lemma renamed_subseteq old_key new_key (l1 l2 : list string) :
  l1 ⊆ l2 → renamed old_key new_key l1 ⊆ renamed old_key new_key l2.
Proof.
  intros Hsub k. unfold renamed. rewrite !list_elem_of_fmap.
  intros (k' & -> & Hk'). exists k'. split; [done|]. by apply Hsub.
Qed.

Lemma occurrences_cons k k' keys :
  occurrences k (k' :: keys) =
  (if decide (k' = k) then 1 else 0) + occurrences k keys.
Proof. unfold occurrences. rewrite filter_cons. by destruct (decide (k' = k)). Qed.

Lemma occurrences_renamed old_key new_key keys :
  old_key ≠ new_key →
  occurrences new_key (renamed old_key new_key keys) =
  occurrences new_key keys + occurrences old_key keys.
Proof.
  intros Hne. induction keys as [|k ks IH]; [done|].
  unfold renamed in *. rewrite fmap_cons, !occurrences_cons, IH.
  destruct (decide (k = old_key)) as [->|Hk].
  - rewrite decide_True by done. rewrite decide_False by done. lia.
  - destruct (decide (k = new_key)); lia.
Qed.

Lemma occurrences_pos k keys : k ∈ keys → 1 ≤ occurrences k keys.
Proof.
  induction keys as [|k' ks IH]; [by intros ?%elem_of_nil|].
  rewrite occurrences_cons. intros [->|Hin]%elem_of_cons.
  - rewrite decide_True by done. lia.
  - specialize (IH Hin). lia.
Qed.

Lemma occurrences_absent k keys : k ∉ keys → occurrences k keys = 0.
Proof.
  induction keys as [|k' ks IH]; [done|].
  rewrite occurrences_cons, not_elem_of_cons. intros [Hne Hout].
  rewrite decide_False by done. by rewrite IH.
Qed.

Lemma occurrences_NoDup k keys : NoDup keys → k ∈ keys → occurrences k keys = 1.
Proof.
  induction 1 as [|k' ks Hout Hnd IH]; [by intros ?%elem_of_nil|].
  rewrite occurrences_cons. intros [->|Hin]%elem_of_cons.
  - rewrite decide_True by done. by rewrite occurrences_absent.
  - rewrite decide_False by (intros ->; done). by rewrite IH.
Qed.

(** The schema lists after a rename, whether or not the old name occurs. *)
Lemma rename_property_key_schema old_key new_key keys mandatory d :
  initialized d keys mandatory →
  initialized (rename_property_key old_key new_key d)
    (renamed old_key new_key keys) (renamed old_key new_key mandatory).
Proof.
  unfold initialized, rename_property_key, get_person_schema, get_mandatory_keys,
    on_schema, set_where.
  intros Hs. rewrite Hs. simpl.
  destruct (decide (old_key ∈ keys)) as [Hk|Hk]; simpl; rewrite ?Hs; simpl;
    destruct (decide (old_key ∈ mandatory)) as [Hm|Hm]; simpl; rewrite ?Hs; simpl;
    rewrite ?(renamed_absent _ _ keys) by done;
    rewrite ?(renamed_absent _ _ mandatory) by done; done.
Qed.

Lemma add_property_key_schema key is_mandatory default_value keys mandatory d :
  initialized d keys mandatory →
  initialized (add_property_key key is_mandatory default_value d)
    (if decide (key ∈ keys) then keys else keys ++ [key])
    (if is_mandatory then
       if decide (key ∈ mandatory) then mandatory else mandatory ++ [key]
     else mandatory).
Proof.
  unfold initialized, add_property_key, on_schema, set_where, append_if_absent.
  intros Hs. destruct is_mandatory; simpl; rewrite Hs; simpl;
    destruct (decide (key ∈ keys)); try destruct (decide (key ∈ mandatory)); done.
Qed.

Lemma delete_property_key_schema key keys mandatory d :
  initialized d keys mandatory →
  initialized (delete_property_key key d)
    (filter (λ k, k ≠ key) keys) (filter (λ k, k ≠ key) mandatory).
Proof.
  unfold initialized, delete_property_key, on_schema, set_where, without.
  intros Hs. simpl. by rewrite Hs.
Qed.

(** One round of the property menu keeps the schema record initialized and
    the mandatory keys among the keys. *)
Lemma config_round_subset c d keys mandatory :
  initialized d keys mandatory → mandatory ⊆ keys →
  ∃ keys' mandatory',
    initialized (config_round c d).2 keys' mandatory' ∧ mandatory' ⊆ keys'.
Proof.
  intros Hs Hsub. destruct c as [key m dflt|old_key new_key|key sure| |]; simpl.
  - destruct (decide (key ∈ MANAGED_PROPERTIES)); simpl; [by eauto|].
    eexists _, _. split; [by apply add_property_key_schema|].
    intros k. destruct m; [destruct (decide (key ∈ mandatory))|];
      destruct (decide (key ∈ keys));
      rewrite ?elem_of_app, ?list_elem_of_singleton; pose proof (Hsub k);
      intuition (subst; auto).
  - eexists _, _. split; [by apply rename_property_key_schema|].
    by apply renamed_subseteq.
  - destruct sure; simpl; [|by eauto].
    eexists _, _. split; [by apply delete_property_key_schema|].
    intros k. rewrite !list_elem_of_filter. intros [? ?]. split; [done|by apply Hsub].
  - eauto.
  - eauto.
Qed.

(** The subset half of the schema invariant holds after any run of
    [config_menu]. *)
Theorem mandatory_keys_subset_of_keys cs d keys mandatory :
  initialized d keys mandatory → mandatory ⊆ keys →
  ∃ keys' mandatory',
    initialized (config_menu cs d) keys' mandatory' ∧ mandatory' ⊆ keys'.
Proof.
  revert d keys mandatory. induction cs as [|c cs IH]; intros d keys mandatory Hs Hsub.
  - simpl. eauto.
  - destruct (config_round_subset c d keys mandatory Hs Hsub) as (ks & ms & Hs' & Hsub').
    destruct c; simpl in *; eauto.
Qed.

Lemma mandatory_keys_subset_of_keys_witness :
  ∃ keys' mandatory',
    initialized
      (config_menu [AddProperty "nick" true ""; RenameProperty "dob" "born";
                    DeleteProperty "gender" true] (init empty_db))
      keys' mandatory' ∧ mandatory' ⊆ keys'.
Proof.
  apply (mandatory_keys_subset_of_keys _ (init empty_db)
           DEFAULT_KEYS DEFAULT_MANDATORY_KEYS).
  - reflexivity.
  - by_evaluation.
Defined.

(** C1.  Schema invariant: after any sequence of add_key / rename_key /
    delete_key the mandatory keys are keys and neither list holds [id] or
    [created_at].  The subset half is [mandatory_keys_subset_of_keys].  The
    reserved-name half is broken by the rename round of [config_menu], which
    has no test against [MANAGED_PROPERTIES] (the add round has one):
    renaming [dod] to [id] on the default schema puts [id] into [keys]. *)
Theorem C1_rename_admits_reserved_name :
  let d := config_menu [RenameProperty "dod" "id"] (init empty_db) in
  schema_invariant (init empty_db) ∧
  initialized d ["firstName"; "lastName"; "gender"; "dob"; "id"]
    ["firstName"; "lastName"; "gender"; "dob"] ∧
  ¬ schema_invariant d.
Proof.
  split; [|split].
  - exists DEFAULT_KEYS, DEFAULT_MANDATORY_KEYS. split; [reflexivity|].
    split; [by_evaluation|].
    apply (proj1 (Forall_forall
                    (λ k, (k ∉ DEFAULT_KEYS) ∧ (k ∉ DEFAULT_MANDATORY_KEYS))
                    MANAGED_PROPERTIES)).
    by_evaluation.
  - reflexivity.
  - intros (keys & mandatory & Hinit & _ & Hres).
    assert (keys = ["firstName"; "lastName"; "gender"; "dob"; "id"]) as ->.
    { unfold initialized in Hinit. vm_compute in Hinit. congruence. }
    destruct (Hres "id") as [Hid _]; [by_evaluation|].
    apply Hid. by_evaluation.
Qed.

(** C3.  For a reserved name the add round of [config_menu] reports the
    error and leaves the whole store (schema lists and every Person) as it
    was. *)
Theorem C3_add_key_rejects_reserved_names key is_mandatory default d :
  key ∈ MANAGED_PROPERTIES →
  config_round (AddProperty key is_mandatory default) d =
    (Rejected "managed property", d) ∧
  config_menu [AddProperty key is_mandatory default] d = d.
Proof.
  intros Hkey. simpl. by rewrite decide_True.
Qed.

(** The test lives in the menu: [add_property_key] itself takes any name. *)
Lemma add_property_key_has_no_guard :
  get_person_schema (add_property_key "id" false (VStr "") (init empty_db)) =
  DEFAULT_KEYS ++ ["id"].
Proof. reflexivity. Qed.

Lemma C3_add_key_rejects_reserved_names_witness :
  config_round (AddProperty "created_at" true "0") (init empty_db) =
    (Rejected "managed property", init empty_db) ∧
  config_menu [AddProperty "created_at" true "0"] (init empty_db) = init empty_db.
Proof.
  apply C3_add_key_rejects_reserved_names.
  by_evaluation.
Defined.

End schema_facts.

(** ** The person repository *)

Section person_facts.

Lemma find_person_first person_id d n l :
  match_person (Some (VStr person_id)) d = n :: l →
  find_person person_id d = Some (node_props n).
Proof. unfold find_person. by intros ->. Qed.

Lemma find_person_inv person_id d found :
  find_person person_id d = Some found →
  ∃ n l, match_person (Some (VStr person_id)) d = n :: l ∧ node_props n = found ∧
         found !! "id" = Some (VStr person_id).
Proof.
  unfold find_person. destruct (match_person _ d) as [|n l] eqn:Hm; [done|].
  simpl. intros [= <-]. exists n, l. split; [done|]. split; [done|].
  assert (n ∈ match_person (Some (VStr person_id)) d) as Hn by (rewrite Hm; left).
  apply match_person_elem in Hn as [_ [_ Hid]]. done.
Qed.

(** C2.  Adding a Person under an id that no Person has, with properties
    that name neither [id] nor [created_at], and then finding it returns
    the submitted properties, the id, and the creation timestamp, and
    nothing else. *)
Theorem C2_add_then_find now person_id properties d :
  (∀ n, n ∈ persons d → node_id n ≠ Some (VStr person_id)) →
  properties !! "id" = None →
  properties !! "created_at" = None →
  ∃ found,
    find_person person_id (add_person now person_id properties d) = Some found ∧
    found !! "id" = Some (VStr person_id) ∧
    found !! "created_at" = Some (VInt now) ∧
    (∀ k, k ≠ "id" → k ≠ "created_at" → found !! k = properties !! k).
Proof.
  intros Hnew Hid Hts.
  pose proof (match_person_none _ _ Hnew) as Hnone.
  set (ps := properties ∪ <["created_at" := VInt now]> {["id" := VStr person_id]}).
  assert (ps !! "id" = Some (VStr person_id)) as Hpid.
  { unfold ps. rewrite lookup_union_r by done.
    rewrite lookup_insert_ne by done. apply lookup_singleton_eq. }
  exists ps. split; [|split; [done|split]].
  - unfold add_person. rewrite Hnone. fold ps.
    apply (find_person_first _ _ (Node (next_ref d) ps) []).
    rewrite match_person_create, Hnone. simpl.
    rewrite decide_True; [done|]. split; [by eexists|done].
  - unfold ps. rewrite lookup_union_r by done. apply lookup_insert_eq.
  - intros k Hk1 Hk2. unfold ps.
    destruct (properties !! k) as [v|] eqn:Hk.
    + by apply lookup_union_Some_l.
    + rewrite lookup_union_r by done.
      rewrite lookup_insert_ne by done. by rewrite lookup_singleton_ne.
Qed.

Lemma C2_add_then_find_witness :
  ∃ found,
    find_person "gen1_01"
      (add_person 1762300800000 "gen1_01" {["firstName" := VStr "A"]} empty_db)
      = Some found ∧
    found !! "id" = Some (VStr "gen1_01") ∧
    found !! "created_at" = Some (VInt 1762300800000) ∧
    (∀ k, k ≠ "id" → k ≠ "created_at" →
          found !! k = ({["firstName" := VStr "A"]} : gmap string value) !! k).
Proof.
  apply C2_add_then_find.
  - intros n Hn. simpl in Hn. by apply elem_of_nil in Hn.
  - reflexivity.
  - reflexivity.
Defined.

(** C9, as amended.  Adding again under an id that a Person has, with
    properties that name neither [id] nor [created_at], overlays the given
    properties on the Person that [find] returns and leaves its id and its
    creation timestamp as they were; no node is created. *)
Theorem C9_add_again_keeps_id_and_timestamp now person_id properties d before :
  find_person person_id d = Some before →
  properties !! "id" = None →
  properties !! "created_at" = None →
  let d' := add_person now person_id properties d in
  find_person person_id d' = Some (properties ∪ before) ∧
  (properties ∪ before) !! "id" = Some (VStr person_id) ∧
  (properties ∪ before) !! "created_at" = before !! "created_at" ∧
  (∀ k v, properties !! k = Some v → (properties ∪ before) !! k = Some v) ∧
  (∀ k, properties !! k = None → (properties ∪ before) !! k = before !! k) ∧
  node_ref <$> persons d' = node_ref <$> persons d ∧
  rels d' = rels d.
Proof.
  intros Hfound Hid Hts d'.
  destruct (find_person_inv _ _ _ Hfound) as (n & l & Hm & Hn & Hbid).
  assert (d' = set_where (has_id (Some (VStr person_id))) (λ ps, properties ∪ ps) d)
    as Hd' by (unfold d', add_person; by rewrite Hm).
  split; [|split; [|split; [|split; [|split; [|split]]]]].
  - rewrite Hd'. unfold find_person.
    rewrite match_person_set_where, Hm.
    + rewrite fmap_cons. simpl. rewrite decide_True; [by rewrite Hn|].
      assert (n ∈ match_person (Some (VStr person_id)) d) as Hin by (rewrite Hm; left).
      by apply match_person_elem in Hin as [_ ?].
    + intros m _ _. by rewrite lookup_union_r.
  - by rewrite lookup_union_r.
  - by rewrite lookup_union_r.
  - intros k v Hk. by apply lookup_union_Some_l.
  - intros k Hk. by rewrite lookup_union_r.
  - rewrite Hd'. apply set_where_refs.
  - by rewrite Hd'.
Qed.

Lemma C9_add_again_keeps_id_and_timestamp_witness :
  let d := add_person 5 "gen1_01" {["firstName" := VStr "A"]} empty_db in
  let before : gmap string value :=
    {["firstName" := VStr "A"]} ∪ <["created_at" := VInt 5]> {["id" := VStr "gen1_01"]} in
  let properties : gmap string value := {["firstName" := VStr "B"]} in
  let d' := add_person 9 "gen1_01" properties d in
  find_person "gen1_01" d' = Some (properties ∪ before) ∧
  (properties ∪ before) !! "id" = Some (VStr "gen1_01") ∧
  (properties ∪ before) !! "created_at" = before !! "created_at" ∧
  (∀ k v, properties !! k = Some v → (properties ∪ before) !! k = Some v) ∧
  (∀ k, properties !! k = None → (properties ∪ before) !! k = before !! k) ∧
  node_ref <$> persons d' = node_ref <$> persons d ∧
  rels d' = rels d.
Proof.
  intros d before properties.
  apply (C9_add_again_keeps_id_and_timestamp 9 "gen1_01" properties d before).
  - reflexivity.
  - reflexivity.
  - reflexivity.
Defined.

(** C9 as stated fails: the overlay is unconditional, so properties that
    name [created_at] or [id] replace the stored ones. *)
Lemma C9_add_again_can_replace_timestamp_and_id :
  let d := add_person 5 "gen1_01" ∅ empty_db in
  (find_person "gen1_01" d ≫= (λ ps, ps !! "created_at")) = Some (VInt 5) ∧
  (find_person "gen1_01" (add_person 9 "gen1_01" {["created_at" := VStr "x"]} d)
     ≫= (λ ps, ps !! "created_at")) = Some (VStr "x") ∧
  node_id <$> persons (add_person 9 "gen1_01" {["id" := VStr "other"]} d)
    = [Some (VStr "other")].
Proof. vm_compute. done. Qed.

End person_facts.

(** ** Renaming onto an existing key *)

Section rename_facts.

Lemma move_property_set old_key new_key (ps : gmap string value) v :
  old_key ≠ new_key →
  ps !! old_key = Some v →
  move_property old_key new_key ps !! new_key = Some v ∧
  move_property old_key new_key ps !! old_key = None ∧
  (∀ k, k ≠ old_key → k ≠ new_key → move_property old_key new_key ps !! k = ps !! k).
Proof.
  intros Hne Hold. unfold move_property. rewrite Hold. split; [|split].
  - rewrite lookup_delete_ne by done. apply lookup_insert_eq.
  - apply lookup_delete_eq.
  - intros k Hk1 Hk2. rewrite lookup_delete_ne by done. by rewrite lookup_insert_ne.
Qed.

Lemma rename_property_key_persons old_key new_key d :
  persons (rename_property_key old_key new_key d) =
  (λ n, if decide (is_Some (node_props n !! old_key))
        then Node (node_ref n) (move_property old_key new_key (node_props n))
        else n) <$> persons d.
Proof.
  unfold rename_property_key, on_schema.
  repeat case_decide; done.
Qed.

(** C10.  When [old] and [new] are distinct keys of the schema,
    [rename_key(old, new)] substitutes without looking for [new]: the keys
    list then holds [new] once for each former occurrence of [new] and of
    [old] (twice when the keys were distinct), and no longer holds [old];
    every Person that had a value for [old] now has that value under [new],
    whatever it had there before, and no value under [old]; the other
    Persons are untouched. *)
Theorem C10_rename_onto_existing_key old_key new_key keys mandatory d :
  initialized d keys mandatory →
  old_key ≠ new_key →
  old_key ∈ keys →
  new_key ∈ keys →
  let d' := rename_property_key old_key new_key d in
  get_person_schema d' = renamed old_key new_key keys ∧
  occurrences new_key (get_person_schema d') =
    occurrences new_key keys + occurrences old_key keys ∧
  2 ≤ occurrences new_key (get_person_schema d') ∧
  (NoDup keys → occurrences new_key (get_person_schema d') = 2) ∧
  (old_key ∉ get_person_schema d') ∧
  length (persons d') = length (persons d) ∧
  (∀ i n, persons d !! i = Some n →
     match node_props n !! old_key with
     | Some v =>
         ∃ n', persons d' !! i = Some n' ∧ node_ref n' = node_ref n ∧
               node_props n' !! new_key = Some v ∧
               node_props n' !! old_key = None
     | None => persons d' !! i = Some n
     end).
Proof.
  intros Hinit Hne Hold Hnew d'.
  pose proof (rename_property_key_schema old_key new_key _ _ _ Hinit) as Hs.
  assert (get_person_schema d' = renamed old_key new_key keys) as Hkeys.
  { unfold get_person_schema. fold d' in Hs. unfold initialized in Hs. by rewrite Hs. }
  pose proof (occurrences_renamed old_key new_key keys Hne) as Hocc.
  pose proof (occurrences_pos _ _ Hold). pose proof (occurrences_pos _ _ Hnew).
  rewrite Hkeys. split; [done|]. split; [done|]. split; [lia|]. split; [|split; [|split]].
  - intros Hnd. rewrite Hocc, !occurrences_NoDup by done. done.
  - unfold renamed. rewrite list_elem_of_fmap. intros (k & Hk & _).
    destruct (decide (k = old_key)); congruence.
  - unfold d'. by rewrite rename_property_key_persons, length_fmap.
  - intros i n Hi. unfold d'. rewrite rename_property_key_persons, list_lookup_fmap, Hi.
    simpl. destruct (node_props n !! old_key) as [v|] eqn:Hv.
    + rewrite decide_True by (by eexists).
      eexists. split; [done|]. split; [done|]. simpl.
      by destruct (move_property_set old_key new_key (node_props n) v Hne Hv) as (? & ? & _).
    + rewrite decide_False; [done|]. by intros [? ?].
Qed.

Lemma C10_rename_onto_existing_key_witness :
  let d :=
    add_person 5 "gen1_01" {["dob" := VStr "1900"; "dod" := VStr "1980"]}
      (init empty_db) in
  let d' := rename_property_key "dod" "dob" d in
  get_person_schema d' = renamed "dod" "dob" DEFAULT_KEYS ∧
  occurrences "dob" (get_person_schema d') =
    occurrences "dob" DEFAULT_KEYS + occurrences "dod" DEFAULT_KEYS ∧
  2 ≤ occurrences "dob" (get_person_schema d') ∧
  (NoDup DEFAULT_KEYS → occurrences "dob" (get_person_schema d') = 2) ∧
  ("dod" ∉ get_person_schema d') ∧
  length (persons d') = length (persons d) ∧
  (∀ i n, persons d !! i = Some n →
     match node_props n !! "dod" with
     | Some v =>
         ∃ n', persons d' !! i = Some n' ∧ node_ref n' = node_ref n ∧
               node_props n' !! "dob" = Some v ∧
               node_props n' !! "dod" = None
     | None => persons d' !! i = Some n
     end).
Proof.
  intros d.
  apply (C10_rename_onto_existing_key "dod" "dob" DEFAULT_KEYS DEFAULT_MANDATORY_KEYS d).
  - reflexivity.
  - discriminate.
  - by_evaluation.
  - by_evaluation.
Defined.

End rename_facts.

(** ** Relationships created by [MERGE] *)

Section merge_facts.

Lemma match_pairs_elem x y d a b :
  (a, b) ∈ match_pairs x y d ↔ a ∈ match_person x d ∧ b ∈ match_person y d.
Proof.
  unfold match_pairs. rewrite list_elem_of_bind. split.
  - intros (a' & Hb & Ha). apply list_elem_of_bind in Hb as (b' & Hab & Hb).
    apply list_elem_of_singleton in Hab as [= -> ->]. done.
  - intros [Ha Hb]. exists a. split; [|done].
    apply list_elem_of_bind. exists b. split; [|done]. by apply list_elem_of_singleton.
Qed.

Lemma merge_rel_elem t rs ab e :
  e ∈ merge_rel t rs ab ↔ e ∈ rs ∨ e = Edge (node_ref ab.1) t (node_ref ab.2).
Proof.
  unfold merge_rel. case_decide as Hin.
  - split; [by left|]. by intros [?| ->].
  - rewrite elem_of_app, list_elem_of_singleton. done.
Qed.

Lemma foldl_merge_rel_elem t pairs rs e :
  e ∈ foldl (merge_rel t) rs pairs ↔
  e ∈ rs ∨ ∃ ab, ab ∈ pairs ∧ e = Edge (node_ref ab.1) t (node_ref ab.2).
Proof.
  revert rs. induction pairs as [|ab pairs IH]; intros rs; simpl.
  - split; [by left|]. intros [?|(? & []%elem_of_nil & _)]. done.
  - rewrite IH, merge_rel_elem. split.
    + intros [[?| ->]|(ab' & Hab' & ->)]; [by left| |].
      * right. exists ab. split; [left|done].
      * right. exists ab'. split; [by right|done].
    + intros [?|(ab' & [->|Hab']%elem_of_cons & ->)]; [by left; left|by left; right|].
      right. by exists ab'.
Qed.

Lemma foldl_merge_rel_NoDup t pairs rs :
  NoDup rs → NoDup (foldl (merge_rel t) rs pairs).
Proof.
  revert rs. induction pairs as [|ab pairs IH]; intros rs Hnd; simpl; [done|].
  apply IH. unfold merge_rel. case_decide as Hin; [done|].
  apply NoDup_app. split; [done|]. split; [|apply NoDup_singleton].
  intros e He ->%list_elem_of_singleton. done.
Qed.

Lemma foldl_merge_rel_extends t pairs rs :
  ∃ new, foldl (merge_rel t) rs pairs = rs ++ new.
Proof.
  revert rs. induction pairs as [|ab pairs IH]; intros rs; simpl.
  - exists []. by rewrite app_nil_r.
  - destruct (IH (merge_rel t rs ab)) as [new ->]. unfold merge_rel.
    case_decide; [by eexists|]. rewrite <- app_assoc. by eexists.
Qed.

(** Where every edge asked for is recorded, [MERGE] creates nothing. *)
Lemma foldl_merge_rel_present t pairs rs :
  (∀ ab, ab ∈ pairs → Edge (node_ref ab.1) t (node_ref ab.2) ∈ rs) →
  foldl (merge_rel t) rs pairs = rs.
Proof.
  induction pairs as [|ab pairs IH]; intros Hall; simpl; [done|].
  unfold merge_rel at 2. rewrite decide_True by (apply Hall; left).
  apply IH. intros ab' Hab'. apply Hall. by right.
Qed.

Lemma merge_between_idempotent x y t d :
  merge_between x y t (merge_between x y t d) = merge_between x y t d.
Proof.
  unfold merge_between, with_rels. simpl. f_equal.
  change (match_pairs x y (Db (persons d) _ (schema d) (next_ref d)))
    with (match_pairs x y d).
  apply foldl_merge_rel_present. intros ab Hab.
  apply foldl_merge_rel_elem. right. by exists ab.
Qed.

Lemma ascii_upper_valid rel_type :
  rel_type ∈ valid_rels → ascii_upper rel_type = rel_type.
Proof.
  unfold valid_rels. rewrite !elem_of_cons, elem_of_nil. by intros [->|[->|[]]].
Qed.

(** C7, as amended.  [link] looks at the upper-cased kind, whatever
    [str.upper] makes of the argument: when that is neither [CHILD_OF] nor
    [SPOUSE_OF] the request is rejected and the store is unchanged;
    otherwise the relationship of the upper-cased kind is merged between
    the matched Persons: it is there afterwards, nothing else is added,
    nothing is recorded twice, and repeating the call changes nothing.  As
    [str.upper] leaves the two names as they are, [CHILD_OF] and
    [SPOUSE_OF] themselves are accepted and give a relationship of that
    kind. *)
Theorem C7_link_checks_upper_cased_kind upper id1 id2 rel_type d :
  (∀ t, t ∈ valid_rels → upper t = t) →
  (rel_type ∈ valid_rels →
     add_relationship upper id1 id2 rel_type d =
     (Success "linked",
      merge_between (Some (VStr id1)) (Some (VStr id2)) rel_type d)) ∧
  (upper rel_type ∉ valid_rels →
     add_relationship upper id1 id2 rel_type d = (Rejected "Invalid relationship type", d)) ∧
  (upper rel_type ∈ valid_rels →
     let d' := (add_relationship upper id1 id2 rel_type d).2 in
     (add_relationship upper id1 id2 rel_type d).1 = Success "linked" ∧
     persons d' = persons d ∧
     schema d' = schema d ∧
     (∀ e, e ∈ rels d' ↔
           e ∈ rels d ∨
           ∃ a b, a ∈ match_person (Some (VStr id1)) d ∧
                  b ∈ match_person (Some (VStr id2)) d ∧
                  e = Edge (node_ref a) (upper rel_type) (node_ref b)) ∧
     (∃ new, rels d' = rels d ++ new) ∧
     (NoDup (rels d) → NoDup (rels d')) ∧
     (add_relationship upper id1 id2 rel_type d').2 = d').
Proof.
  intros Hfix. unfold add_relationship. split; [|split].
  - intros Hin. rewrite (Hfix rel_type Hin). by rewrite decide_True.
  - intros Hbad. by rewrite decide_False.
  - intros Hok. rewrite decide_True by done. simpl.
    split; [done|]. split; [done|]. split; [done|]. split; [|split; [|split]].
    + intros e. rewrite foldl_merge_rel_elem. split.
      * intros [?|([a b] & Hab & ->)]; [by left|]. right.
        apply match_pairs_elem in Hab as [? ?]. by exists a, b.
      * intros [?|(a & b & Ha & Hb & ->)]; [by left|]. right.
        exists (a, b). split; [by apply match_pairs_elem|done].
    + apply foldl_merge_rel_extends.
    + apply foldl_merge_rel_NoDup.
    + rewrite decide_True by done. apply merge_between_idempotent.
Qed.

Lemma C7_link_checks_upper_cased_kind_witness :
  let d := add_person 2 "b" ∅ (add_person 1 "a" ∅ empty_db) in
  add_relationship ascii_upper "a" "b" "FRIEND_OF" d =
    (Rejected "Invalid relationship type", d) ∧
  (add_relationship ascii_upper "a" "b" "child_of" d).1 = Success "linked" ∧
  add_relationship ascii_upper "a" "b" "CHILD_OF" d =
    (Success "linked", merge_between (Some (VStr "a")) (Some (VStr "b")) "CHILD_OF" d).
Proof.
  intros d. split; [|split].
  - apply (C7_link_checks_upper_cased_kind ascii_upper "a" "b" "FRIEND_OF" d).
    + apply ascii_upper_valid.
    + by_evaluation.
  - apply (C7_link_checks_upper_cased_kind ascii_upper "a" "b" "child_of" d).
    + apply ascii_upper_valid.
    + by_evaluation.
  - apply (C7_link_checks_upper_cased_kind ascii_upper "a" "b" "CHILD_OF" d).
    + apply ascii_upper_valid.
    + by_evaluation.
Defined.

(** C7 as stated fails: [child_of] is not one of the two names, its
    upper-cased form is [CHILD_OF], and the request is accepted and creates
    a [CHILD_OF] relationship. *)
Lemma C7_lower_case_kind_is_accepted :
  let d := add_person 2 "b" ∅ (add_person 1 "a" ∅ empty_db) in
  ("child_of" ∉ valid_rels) ∧
  ascii_upper "child_of" = "CHILD_OF" ∧
  (add_relationship ascii_upper "a" "b" "child_of" d).1 = Success "linked" ∧
  rels d = [] ∧
  rels (add_relationship ascii_upper "a" "b" "child_of" d).2 = [Edge 0 "CHILD_OF" 1].
Proof.
  split; [|by vm_compute].
  by_evaluation.
Qed.

End merge_facts.

(** ** What [find_relatives] shows of a relationship *)

Section relatives_facts.

Lemma filter_unique_by {A B : Type} `{EqDecision B} (f : A → B) (l : list A) x :
  NoDup (f <$> l) → x ∈ l → filter (λ y, f y = f x) l = [x].
Proof.
  induction l as [|y l IH]; [by intros _ ?%elem_of_nil|].
  rewrite fmap_cons, NoDup_cons, filter_cons. intros [Hy Hnd] [->|Hin]%elem_of_cons.
  - rewrite decide_True by done. f_equal.
    clear IH Hnd. induction l as [|z l IH]; [done|].
    rewrite fmap_cons, not_elem_of_cons in Hy. destruct Hy as [Hne Hy].
    rewrite filter_cons, decide_False by done. by apply IH.
  - rewrite decide_False; [by apply IH|].
    intros Heq. apply Hy. rewrite Heq. apply list_elem_of_fmap. by exists x.
Qed.

Lemma node_at_self n d : wf d → n ∈ persons d → node_at (node_ref n) d = [n].
Proof. intros (Hrefs & _) Hn. by apply (filter_unique_by node_ref). Qed.

Lemma node_at_elem n r d : n ∈ node_at r d ↔ n ∈ persons d ∧ node_ref n = r.
Proof. unfold node_at. rewrite list_elem_of_filter. tauto. Qed.

Lemma same_ref_same_node n m d :
  wf d → n ∈ persons d → m ∈ persons d → node_ref n = node_ref m → n = m.
Proof.
  intros Hwf Hn Hm Href.
  assert (m ∈ node_at (node_ref n) d) as Hin by (by apply node_at_elem).
  rewrite node_at_self in Hin by done. by apply list_elem_of_singleton in Hin.
Qed.




Lemma filter_none {A : Type} (P : A → Prop) `{∀ y, Decision (P y)} (l : list A) :
  (∀ x, x ∈ l → ¬ P x) → filter P l = [].
Proof.
  induction l as [|x l IH]; [done|]. intros Hall.
  rewrite filter_cons, decide_False by (apply Hall; left).
  apply IH. intros y Hy. apply Hall. by right.
Qed.


Lemma wf_merge_between x y t d : wf d → wf (merge_between x y t d).
Proof.
  intros (Hrefs & Hfresh & Hrels & Hends).
  split; [done|]. split; [done|]. split; simpl.
  - by apply foldl_merge_rel_NoDup.
  - apply Forall_forall.
    intros e [He|([a b] & Hab & ->)]%foldl_merge_rel_elem;
      [by apply (proj1 (Forall_forall _ _) Hends)|].
    apply match_pairs_elem in Hab as [[Ha _]%match_person_elem [Hb _]%match_person_elem].
    simpl. split; by apply (proj1 (Forall_forall _ _) Hfresh).
Qed.





(** C6.  The merge in [link] is directed, so it does not see a
    [SPOUSE_OF] relationship recorded the other way round: after
    [link(b, a, "SPOUSE_OF")], two calls of [link(a, b, "SPOUSE_OF")] leave
    two [SPOUSE_OF] relationships between [a] and [b], and [find_relatives]
    lists [b] twice among the spouses of [a].  The undirected merge, which
    the form of the graphical program uses for a spouse, adds nothing for
    the same two Persons. *)
Lemma C6_reverse_link_gives_two :
  let d0 := add_person 2 "b" ∅ (add_person 1 "a" ∅ empty_db) in
  let d := (add_relationship ascii_upper "b" "a" "SPOUSE_OF" d0).2 in
  let d2 :=
    (add_relationship ascii_upper "a" "b" "SPOUSE_OF"
       (add_relationship ascii_upper "a" "b" "SPOUSE_OF" d).2).2 in
  rels d = [Edge 1 "SPOUSE_OF" 0] ∧
  rels d2 = [Edge 1 "SPOUSE_OF" 0; Edge 0 "SPOUSE_OF" 1] ∧
  node_ref <$> find_relatives "a" (Either "SPOUSE_OF") d2 = [1; 1] ∧
  length (spouse_rows "a" "b" d2) = 2 ∧
  foldl (merge_rel_undirected "SPOUSE_OF") (rels d)
    (match_pairs (Some (VStr "a")) (Some (VStr "b")) d) = rels d.
Proof. vm_compute. done. Qed.

End relatives_facts.

(** ** Navigation *)

Section navigation_facts.

Lemma pop_snoc {A : Type} (l : list A) x : pop (l ++ [x]) = Some (l, x).
Proof. induction l as [|y l IH]; [done|]. simpl. by rewrite IH. Qed.

Lemma pop_inv {A : Type} (l : list A) :
  match pop l with
  | None => l = []
  | Some (rest, x) => l = rest ++ [x]
  end.
Proof.
  induction l as [|y l IH]; [done|]. simpl.
  destruct (pop l) as [[rest x]|]; by subst.
Qed.

Lemma abstraction_eq a v st :
  view_of (view_mode a) (view_context_id a) = Some v →
  mapM (λ mc, view_of mc.1 mc.2) (history a) = Some st →
  abstraction a = Some (Nav v st).
Proof. unfold abstraction. by intros -> ->. Qed.

Lemma abstraction_inv a n :
  abstraction a = Some n →
  view_of (view_mode a) (view_context_id a) = Some (current n) ∧
  mapM (λ mc, view_of mc.1 mc.2) (history a) = Some (stack n).
Proof.
  unfold abstraction.
  destruct (view_of _ _) as [v|]; [|done]. simpl.
  destruct (mapM _ _) as [st|]; [|done]. simpl. by intros [= <-].
Qed.

Lemma mapM_snoc {A B : Type} (f : A → option B) l x k y :
  mapM f l = Some k → f x = Some y → mapM f (l ++ [x]) = Some (k ++ [y]).
Proof.
  rewrite !mapM_Some. intros Hl Hx. apply Forall2_app; [done|]. by constructor.
Qed.

Lemma mapM_snoc_inv {A B : Type} (f : A → option B) l x k :
  mapM f (l ++ [x]) = Some k →
  ∃ k' y, k = k' ++ [y] ∧ mapM f l = Some k' ∧ f x = Some y.
Proof.
  rewrite mapM_Some. intros (k' & ky & Hl & Hx & ->)%Forall2_app_inv_l.
  apply Forall2_cons_inv_l in Hx as (y & k'' & Hy & ->%Forall2_nil_inv_l & ->).
  exists k', y. by rewrite mapM_Some.
Qed.

Lemma view_of_generation c v : view_of generation c = Some v → c = Gen 1 ∧ v = ROOT.
Proof.
  destruct c as [z|id]; simpl; [|done].
  destruct z as [|p|p]; try done. destruct p; try done. by intros [= <-].
Qed.

(** What the specification says of each transition, for a state the
    specification can read. *)
Lemma view_children_refines a n id :
  abstraction a = Some n → selected a = Some id →
  abstraction (view_children a) = Some (nav_view_children id n).
Proof.
  intros [Hv Hst]%abstraction_inv Hsel. unfold view_children. rewrite Hsel.
  apply abstraction_eq; simpl; [done|]. by apply mapM_snoc.
Qed.

Lemma go_back_refines a n :
  abstraction a = Some n → abstraction (go_back a) = Some (nav_go_back n).
Proof.
  intros Habs. pose proof Habs as [Hv Hst]%abstraction_inv.
  unfold go_back, nav_go_back. pose proof (pop_inv (history a)) as Hpop.
  destruct (pop (history a)) as [[rest [m c]]|].
  - rewrite Hpop in Hst.
    apply mapM_snoc_inv in Hst as (st' & v & -> & Hrest & Hmc).
    rewrite pop_snoc. simpl in Hmc.
    destruct m; simpl.
    + apply view_of_generation in Hmc as [-> ->]. by apply abstraction_eq.
    + by apply abstraction_eq.
  - rewrite Hpop in Hst. simpl in Hst. injection Hst as <-. done.
Qed.

Lemma go_to_top_generation_refines a n :
  abstraction (go_to_top_generation a) = Some (nav_go_to_top n).
Proof. done. Qed.

Lemma handle_readable ev a : is_Some (abstraction a) → is_Some (abstraction (handle ev a)).
Proof.
  intros [n Habs]. destruct ev as [sel| | | |]; simpl.
  - pose proof Habs as [Hv Hst]%abstraction_inv.
    exists n. destruct sel; simpl.
    + rewrite <- Habs. done.
    + rewrite <- Habs. done.
  - destruct (selected a) as [id|] eqn:Hsel.
    + eexists. by apply view_children_refines.
    + unfold view_children. rewrite Hsel. by exists n.
  - eexists. by apply go_back_refines.
  - by eexists.
  - pose proof Habs as [Hv Hst]%abstraction_inv.
    exists n. unfold refresh_current_view.
    destruct n as [v st]. simpl in *.
    destruct (view_mode a) eqn:Hm; simpl.
    + apply view_of_generation in Hv as [Hc ->]. by apply abstraction_eq.
    + by apply abstraction_eq.
Qed.

Lemma reachable_readable a : reachable a → is_Some (abstraction a).
Proof.
  induction 1 as [|ev a _ IH]; [by eexists|]. by apply handle_readable.
Qed.

(** C8.  The navigation state starts as ROOT with an empty history, and in
    every state the application can reach: view-children on a selected
    person pushes the current view and shows CHILDREN of that person;
    go-back pops the last pushed view and shows it, pushing nothing;
    go-to-top empties the history and shows ROOT. *)
Theorem C8_navigation_state_machine a :
  reachable a →
  abstraction initial = Some nav_initial ∧
  abstraction initialize_main_app = Some nav_initial ∧
  ∃ n,
    abstraction a = Some n ∧
    (∀ id, selected a = Some id →
       abstraction (view_children a) = Some (nav_view_children id n) ∧
       history (view_children a) = history a ++ [(view_mode a, view_context_id a)] ∧
       view_mode (view_children a) = children ∧
       view_context_id (view_children a) = Pid id) ∧
    abstraction (go_back a) = Some (nav_go_back n) ∧
    (∀ rest m c, history a = rest ++ [(m, c)] →
       history (go_back a) = rest ∧
       view_mode (go_back a) = m ∧
       view_context_id (go_back a) = c) ∧
    abstraction (go_to_top_generation a) = Some (nav_go_to_top n) ∧
    history (go_to_top_generation a) = [] ∧
    view_mode (go_to_top_generation a) = generation.
Proof.
  intros Hreach. split; [done|]. split; [done|].
  destruct (reachable_readable a Hreach) as [n Habs]. exists n.
  split; [done|]. split; [|split; [|split; [|done]]].
  - intros id Hsel. split; [by apply view_children_refines|].
    unfold view_children. by rewrite Hsel.
  - by apply go_back_refines.
  - intros rest m c Hh. unfold go_back. rewrite Hh, pop_snoc.
    apply abstraction_inv in Habs as [_ Hst]. rewrite Hh in Hst.
    apply mapM_snoc_inv in Hst as (st' & v & _ & _ & Hmc). simpl in Hmc.
    destruct m; simpl; [|done].
    by apply view_of_generation in Hmc as [-> _].
Qed.

Lemma C8_navigation_state_machine_witness :
  let a := handle ViewChildren (handle (Select (Some "gen1_01")) initialize_main_app) in
  abstraction initial = Some nav_initial ∧
  abstraction initialize_main_app = Some nav_initial ∧
  ∃ n,
    abstraction a = Some n ∧
    (∀ id, selected a = Some id →
       abstraction (view_children a) = Some (nav_view_children id n) ∧
       history (view_children a) = history a ++ [(view_mode a, view_context_id a)] ∧
       view_mode (view_children a) = children ∧
       view_context_id (view_children a) = Pid id) ∧
    abstraction (go_back a) = Some (nav_go_back n) ∧
    (∀ rest m c, history a = rest ++ [(m, c)] →
       history (go_back a) = rest ∧
       view_mode (go_back a) = m ∧
       view_context_id (go_back a) = c) ∧
    abstraction (go_to_top_generation a) = Some (nav_go_to_top n) ∧
    history (go_to_top_generation a) = [] ∧
    view_mode (go_to_top_generation a) = generation.
Proof.
  intros a. apply C8_navigation_state_machine.
  unfold a. apply reachable_step, reachable_step, reachable_start.
Defined.

End navigation_facts.

(** ** Adding relatives from the GUI *)

Section relative_facts.

Lemma bind_none {A B : Type} (g : A → list B) (l : list A) :
  (∀ x, x ∈ l → g x = []) → l ≫= g = [].
Proof.
  induction l as [|x l IH]; [done|]. intros Hall.
  rewrite bind_cons, (Hall x) by left. simpl.
  apply IH. intros y Hy. apply Hall. by right.
Qed.

Lemma selected_eq a id :
  current_person_id a = Some id → id ≠ "" → selected a = Some id.
Proof. unfold selected. intros -> Hne. by rewrite decide_False. Qed.

(** C5.  When no [CHILD_OF] relationship leaves the selected person,
    add-sibling stops with the error box "Cannot Add Sibling" before any
    form is opened: the store and the view are unchanged, so no Person and
    no relationship is created. *)
Theorem C5_add_sibling_without_parent int_of_text action a d P :
  current_person_id a = Some P →
  P ≠ "" →
  (∀ n e, n ∈ persons d → has_id (Some (VStr P)) n → e ∈ rels d →
          edge_src e = node_ref n → edge_type e ≠ "CHILD_OF") →
  add_sibling int_of_text action a d = (Rejected "Cannot Add Sibling", a, d).
Proof.
  intros Hcur Hne Hnone. unfold add_sibling. rewrite (selected_eq a P) by done.
  rewrite bind_none; [done|].
  intros p [Hp Hid]%match_person_elem.
  unfold match_path_from. rewrite bind_none; [done|].
  intros e He. unfold other_end. case_decide as Hmatch; [|done].
  destruct Hmatch as [Ht Hs]. by destruct (Hnone p e).
Qed.

Lemma C5_add_sibling_without_parent_witness :
  let d := add_person 1 "gen1_01" ∅ (init empty_db) in
  let a := on_person_select (Some "gen1_01") initialize_main_app in
  add_sibling (λ _, None) (Submit {["childNumber" := "2"]} None) a d =
  (Rejected "Cannot Add Sibling", a, d).
Proof.
  intros d a. apply C5_add_sibling_without_parent with (P := "gen1_01").
  - reflexivity.
  - discriminate.
  - intros n e _ _ He. simpl in He. by apply elem_of_nil in He.
Defined.

Lemma wf_fresh d n : wf d → n ∈ persons d → node_ref n < next_ref d.
Proof. intros (_ & Hfresh & _) Hn. by apply (proj1 (Forall_forall _ _) Hfresh). Qed.

Lemma wf_ends d e :
  wf d → e ∈ rels d → edge_src e < next_ref d ∧ edge_dst e < next_ref d.
Proof. intros (_ & _ & _ & Hends) He. by apply (proj1 (Forall_forall _ _) Hends). Qed.

Lemma other_end_cases pat r e r' :
  other_end pat r e = Some r' → r' = edge_src e ∨ r' = edge_dst e.
Proof.
  unfold other_end. destruct pat; repeat case_decide; intros [= <-]; auto.
Qed.

Lemma node_at_create r ps d :
  r ≠ next_ref d → node_at r (create_person ps d) = node_at r d.
Proof.
  intros Hr. unfold node_at, create_person. simpl.
  rewrite filter_app, filter_cons, decide_False by done. by rewrite app_nil_r.
Qed.

(** A node that was just created is on no path. *)
Lemma match_path_from_create p pat ps d :
  wf d → match_path_from p pat (create_person ps d) = match_path_from p pat d.
Proof.
  intros Hwf. unfold match_path_from. simpl. apply Forall_bind_ext, Forall_forall.
  intros e He. destruct (other_end pat (node_ref p) e) as [r|] eqn:Hr; [|done].
  apply node_at_create. destruct (wf_ends d e Hwf He).
  apply other_end_cases in Hr as [->| ->]; lia.
Qed.

Lemma match_path_create idv pat ps d :
  wf d → ¬ has_id idv (Node (next_ref d) ps) →
  match_path idv pat (create_person ps d) = match_path idv pat d.
Proof.
  intros Hwf Hid. unfold match_path.
  rewrite match_person_create, decide_False, app_nil_r by done.
  apply Forall_bind_ext, Forall_forall. intros p _. by apply match_path_from_create.
Qed.

Lemma merge_between_single x y t a b d :
  match_person x d = [a] → match_person y d = [b] →
  Edge (node_ref a) t (node_ref b) ∉ rels d →
  merge_between x y t d = with_rels (rels d ++ [Edge (node_ref a) t (node_ref b)]) d.
Proof.
  intros Ha Hb Hout. unfold merge_between, match_pairs. rewrite Ha, Hb. simpl.
  unfold merge_rel. simpl. by rewrite decide_False.
Qed.

Lemma child_id_not_empty base child_num : base +:+ "_" +:+ child_num ≠ "".
Proof. by destruct base. Qed.

Lemma form_schema_child_number schema :
  "childNumber" ∈ schema → "childNumber" ∈ form_schema schema.
Proof. intros Hin. unfold form_schema. by apply list_elem_of_filter. Qed.

(** The add-child button reads the generation of the selected person and
    opens the form for a child of the next generation. *)
Lemma add_child_opens_form int_of_text action a d P parent_gen :
  selected a = Some P →
  gen_of int_of_text
    ((λ p, node_props p !! "genNumber") <$> match_person (Some (VStr P)) d)
    = Some parent_gen →
  add_child int_of_text action a d =
  open_person_form child P (parent_gen + 1) action a d.
Proof. unfold add_child. by intros -> ->. Qed.

(** C4, as amended.  The selected person [P] is one node, the spouses query
    returns two other Persons, the schema has the key [childNumber] and the
    form is submitted with a child number that is not empty and gives an
    id no Person has.  Then add-child creates one Person with that id and
    exactly three [CHILD_OF] relationships, all leaving the new Person: to
    [P] and to each of the two spouses. *)
Theorem C4_add_child_links_all_parents
    P child_num gen_number typed asked_id a d schema mandatory nP n1 n2 i1 i2 :
  wf d →
  get_schema_details d = Some (schema, mandatory) →
  "childNumber" ∈ schema →
  typed !! "childNumber" = Some child_num →
  child_num ≠ "" →
  (∀ n, n ∈ persons d → node_id n ≠ Some (VStr (P +:+ "_" +:+ child_num))) →
  match_person (Some (VStr P)) d = [nP] →
  match_path (Some (VStr P)) (Either "SPOUSE_OF") d = [n1; n2] →
  node_id n1 = Some i1 →
  node_id n2 = Some i2 →
  match_person (Some i1) d = [n1] →
  match_person (Some i2) d = [n2] →
  n1 ≠ n2 → n1 ≠ nP → n2 ≠ nP →
  ∃ new d',
    open_person_form child P gen_number (Submit typed asked_id) a d =
      (Success "added", refresh_current_view a, d') ∧
    persons d' = persons d ++ [new] ∧
    node_ref new = next_ref d ∧
    node_id new = Some (VStr (P +:+ "_" +:+ child_num)) ∧
    rels d' =
      rels d ++ [Edge (node_ref new) "CHILD_OF" (node_ref nP);
                 Edge (node_ref new) "CHILD_OF" (node_ref n1);
                 Edge (node_ref new) "CHILD_OF" (node_ref n2)] ∧
    edges_from (node_ref new) d' =
      [Edge (node_ref new) "CHILD_OF" (node_ref nP);
       Edge (node_ref new) "CHILD_OF" (node_ref n1);
       Edge (node_ref new) "CHILD_OF" (node_ref n2)].
Proof.
  intros Hwf Hschema Hkey Htyped Hnum Hnew HP Hsp Hi1 Hi2 H1 H2 H12 H1P H2P.
  set (new_id := P +:+ "_" +:+ child_num) in *.
  set (result := <["id" := VStr new_id]> (entries_result schema gen_number typed)).
  set (data := filter (λ kv : string * value, truthy kv.2 = true ∧ kv.1 ≠ "id") result).
  set (new := Node (next_ref d) (data ∪ {["id" := VStr new_id]})).
  set (d1 := create_person (data ∪ {["id" := VStr new_id]}) d).
  (* the form *)
  assert (submit (Some child) P schema gen_number typed asked_id d = result) as Hsubmit.
  { unfold submit. rewrite decide_True by (by apply form_schema_child_number).
    unfold entry_text. rewrite Htyped. simpl. by rewrite decide_False. }
  assert (node_id new = Some (VStr new_id)) as Hnid.
  { unfold node_id, new. simpl. rewrite lookup_union_r; [apply lookup_singleton_eq|].
    apply map_lookup_filter_None. right. intros v _ [_ Hk]. done. }
  (* the matches after the creation *)
  assert (nP ∈ persons d ∧ has_id (Some (VStr P)) nP) as [HPin [_ HPid]].
  { apply match_person_elem. rewrite HP. left. }
  assert (n1 ∈ persons d) as H1in.
  { eapply proj1, match_person_elem. rewrite H1. left. }
  assert (n2 ∈ persons d) as H2in.
  { eapply proj1, match_person_elem. rewrite H2. left. }
  assert (∀ n idv, n ∈ persons d → node_id n = Some idv → ¬ has_id (Some idv) new)
    as Hother.
  { intros n idv Hn Hid [_ Hh]. apply (Hnew n Hn). congruence. }
  assert (∀ n idv, n ∈ persons d → node_id n = Some idv →
                   match_person (Some idv) d1 = match_person (Some idv) d) as Hold.
  { intros n idv Hn Hid. unfold d1. rewrite match_person_create.
    rewrite decide_False by (by eapply Hother). by rewrite app_nil_r. }
  assert (match_person (Some (VStr new_id)) d1 = [new]) as Hmnew.
  { unfold d1. rewrite match_person_create, (match_person_none _ d) by done.
    simpl. rewrite decide_True; [done|]. split; [by eexists|done]. }
  assert (match_path (Some (VStr P)) (Either "SPOUSE_OF") d1 = [n1; n2]) as Hsp1.
  { unfold d1. rewrite match_path_create; [done..|]. by apply (Hother nP). }
  (* the three merges *)
  assert (∀ n, n ∈ persons d → node_ref n ≠ next_ref d) as Hlt.
  { intros n Hn. pose proof (wf_fresh d n Hwf Hn). lia. }
  assert (∀ e, e ∈ rels d → edge_src e ≠ next_ref d) as Hsrc.
  { intros e He. destruct (wf_ends d e Hwf He). lia. }
  assert (∀ n m, n ∈ persons d → m ∈ persons d → n ≠ m → node_ref n ≠ node_ref m)
    as Hdiff.
  { intros n m Hn Hm Hnm Href. by apply Hnm, (same_ref_same_node n m d). }
  set (eP := Edge (next_ref d) "CHILD_OF" (node_ref nP)).
  set (e1 := Edge (next_ref d) "CHILD_OF" (node_ref n1)).
  set (e2 := Edge (next_ref d) "CHILD_OF" (node_ref n2)).
  assert (link_new_person child (Some (VStr new_id)) P d1 =
          with_rels (rels d ++ [eP; e1; e2]) d1) as Hlink.
  { unfold link_new_person. rewrite Hsp1. simpl. rewrite Hi1, Hi2.
    unfold link_to_parents. simpl.
    rewrite (merge_between_single _ (Some (VStr P)) _ new nP);
      [|done|by rewrite (Hold nP)| intros He; by apply (Hsrc _ He)].
    rewrite (merge_between_single _ (Some i1) _ new n1);
      [|done|by rewrite <- H1; apply (Hold n1)|].
    2:{ simpl. intros [He|He%list_elem_of_singleton]%elem_of_app.
        - by apply (Hsrc _ He).
        - injection He as Href. by apply (Hdiff n1 nP). }
    rewrite (merge_between_single _ (Some i2) _ new n2);
      [|done|by rewrite <- H2; apply (Hold n2)|].
    2:{ simpl.
        intros [[He|He%list_elem_of_singleton]%elem_of_app|He%list_elem_of_singleton]%elem_of_app.
        - by apply (Hsrc _ He).
        - injection He as Href. by apply (Hdiff n2 nP).
        - injection He as Href. by apply (Hdiff n2 n1). }
    simpl. fold eP e1 e2. unfold with_rels. simpl. by rewrite <- !app_assoc. }
  exists new, (with_rels (rels d ++ [eP; e1; e2]) d1).
  split; [|split; [done|split; [done|split; [done|split; [done|]]]]].
  - unfold open_person_form, dialog_result. rewrite Hschema, Hsubmit. cbv zeta.
    fold data. unfold result at 1. rewrite lookup_insert_eq. unfold truthy.
    rewrite (proj2 (String.eqb_neq _ _)) by apply child_id_not_empty. cbn [negb].
    fold d1. by rewrite Hlink.
  - unfold edges_from. simpl. rewrite filter_app, (filter_none _ (rels d)) by done.
    simpl. rewrite !filter_cons, !decide_True by done. done.
Qed.

Lemma C4_add_child_links_all_parents_witness :
  let d0 :=
    add_person 3 "s2" ∅ (add_person 2 "s1" ∅ (add_person 1 "p" ∅ (init empty_db))) in
  let d1 :=
    (add_relationship ascii_upper "s2" "p" "SPOUSE_OF"
       (add_relationship ascii_upper "p" "s1" "SPOUSE_OF" d0).2).2 in
  let d := (config_round (AddProperty "childNumber" false "") d1).2 in
  let a := on_person_select (Some "p") initialize_main_app in
  let typed : gmap string string := {["childNumber" := "3"; "firstName" := "K"]} in
  let nth_person := λ i, default (Node 0 ∅) (persons d !! i) in
  let nP := nth_person 0 in
  let n1 := nth_person 1 in
  let n2 := nth_person 2 in
  ∃ new d',
    open_person_form child "p" 2 (Submit typed None) a d =
      (Success "added", refresh_current_view a, d') ∧
    persons d' = persons d ++ [new] ∧
    node_ref new = next_ref d ∧
    node_id new = Some (VStr ("p" +:+ "_" +:+ "3")) ∧
    rels d' =
      rels d ++ [Edge (node_ref new) "CHILD_OF" (node_ref nP);
                 Edge (node_ref new) "CHILD_OF" (node_ref n1);
                 Edge (node_ref new) "CHILD_OF" (node_ref n2)] ∧
    edges_from (node_ref new) d' =
      [Edge (node_ref new) "CHILD_OF" (node_ref nP);
       Edge (node_ref new) "CHILD_OF" (node_ref n1);
       Edge (node_ref new) "CHILD_OF" (node_ref n2)].
Proof.
  intros d0 d1 d a typed nth_person nP n1 n2.
  apply (C4_add_child_links_all_parents "p" "3" 2 typed None a d
           (DEFAULT_KEYS ++ ["childNumber"]) DEFAULT_MANDATORY_KEYS
           nP n1 n2 (VStr "s1") (VStr "s2")).
  - by_evaluation.
  - reflexivity.
  - by_evaluation.
  - reflexivity.
  - discriminate.
  - apply (proj1 (Forall_forall (λ n, node_id n ≠ Some (VStr "p_3")) (persons d))).
    by_evaluation.
  - reflexivity.
  - reflexivity.
  - reflexivity.
  - reflexivity.
  - reflexivity.
  - reflexivity.
  - by_evaluation.
  - by_evaluation.
  - by_evaluation.
Defined.

(** C4 as stated fails: the id of a child is made from the child number.
    Here [p] has two recorded spouses and the schema has the key
    [childNumber]; the form is submitted with that entry left empty, and
    add-child ends with the warning "ID Required": no Person and no
    relationship is created. *)
Lemma C4_no_child_number_no_child :
  let d0 :=
    add_person 3 "s2" ∅ (add_person 2 "s1" ∅ (add_person 1 "p" ∅ (init empty_db))) in
  let d1 :=
    (add_relationship ascii_upper "s2" "p" "SPOUSE_OF"
       (add_relationship ascii_upper "p" "s1" "SPOUSE_OF" d0).2).2 in
  let d := (config_round (AddProperty "childNumber" false "") d1).2 in
  let a := on_person_select (Some "p") initialize_main_app in
  let run := add_child (λ _, None) (Submit {["firstName" := "K"]} None) a d in
  node_id <$> find_relatives "p" (Either "SPOUSE_OF") d =
    [Some (VStr "s1"); Some (VStr "s2")] ∧
  "childNumber" ∈ get_person_schema d ∧
  run = (Warning "ID Required", a, d) ∧
  persons run.2 = persons d ∧
  rels run.2 = rels d.
Proof.
  split; [by vm_compute|]. split; [by_evaluation|]. by vm_compute.
Qed.

End relative_facts.

(** ** Every store the programs produce is well formed *)

Section wf_facts.

Lemma wf_empty : wf empty_db.
Proof. by_evaluation. Qed.

Lemma wf_with_schema s d : wf d → wf (with_schema s d).
Proof. done. Qed.

Lemma wf_on_schema f d : wf d → wf (on_schema f d).
Proof. done. Qed.

Lemma wf_set_where sel `{∀ n, Decision (sel n)} f d : wf d → wf (set_where sel f d).
Proof.
  intros (Hrefs & Hfresh & Hrels & Hends). split; [|split; [|done]].
  - by rewrite set_where_refs.
  - rewrite set_where_persons. apply Forall_fmap. simpl.
    eapply Forall_impl; [done|]. intros n Hn. simpl. by destruct (decide (sel n)).
Qed.

Lemma wf_create_person ps d : wf d → wf (create_person ps d).
Proof.
  intros (Hrefs & Hfresh & Hrels & Hends). unfold wf, create_person. simpl.
  split; [|split; [|split; [done|]]].
  - rewrite fmap_app. apply NoDup_app. split; [done|]. split; [|apply NoDup_singleton].
    intros r (n & Hr & Hn)%list_elem_of_fmap Hr'%list_elem_of_singleton.
    pose proof (proj1 (Forall_forall _ _) Hfresh n Hn). simpl in *. lia.
  - apply Forall_app. split.
    + eapply Forall_impl; [done|]. simpl. lia.
    + apply Forall_singleton. simpl. lia.
  - eapply Forall_impl; [done|]. simpl. lia.
Qed.

Lemma foldl_merge_rel_undirected_elem t pairs rs e :
  e ∈ foldl (merge_rel_undirected t) rs pairs →
  e ∈ rs ∨ ∃ ab, ab ∈ pairs ∧ e = Edge (node_ref ab.1) t (node_ref ab.2).
Proof.
  revert rs. induction pairs as [|ab pairs IH]; intros rs; simpl; [by left|].
  intros [He|(ab' & Hab' & ->)]%IH.
  - unfold merge_rel_undirected in He. case_decide; [by left|].
    apply elem_of_app in He as [?| ->%list_elem_of_singleton]; [by left|].
    right. exists ab. split; [left|done].
  - right. exists ab'. split; [by right|done].
Qed.

Lemma foldl_merge_rel_undirected_NoDup t pairs rs :
  NoDup rs → NoDup (foldl (merge_rel_undirected t) rs pairs).
Proof.
  revert rs. induction pairs as [|ab pairs IH]; intros rs Hnd; simpl; [done|].
  apply IH. unfold merge_rel_undirected. case_decide as Hin; [done|].
  apply NoDup_app. split; [done|]. split; [|apply NoDup_singleton].
  intros e He ->%list_elem_of_singleton. apply Hin. by left.
Qed.

Lemma wf_link_to_parents child_id parent_ids d :
  wf d → wf (link_to_parents child_id parent_ids d).
Proof.
  unfold link_to_parents. revert d.
  induction parent_ids as [|pid pids IH]; intros d Hwf; simpl; [done|].
  by apply IH, wf_merge_between.
Qed.

Lemma wf_link_new_person r new_person_id related_person_id d :
  wf d → wf (link_new_person r new_person_id related_person_id d).
Proof.
  intros Hwf. unfold link_new_person. destruct r; [by apply wf_link_to_parents..|].
  destruct Hwf as (Hrefs & Hfresh & Hrels & Hends).
  split; [done|]. split; [done|]. split; simpl.
  - by apply foldl_merge_rel_undirected_NoDup.
  - apply Forall_forall.
    intros e [He|([x y] & Hxy & ->)]%foldl_merge_rel_undirected_elem;
      [by apply (proj1 (Forall_forall _ _) Hends)|].
    apply match_pairs_elem in Hxy as [[Hx _]%match_person_elem [Hy _]%match_person_elem].
    simpl. split; by apply (proj1 (Forall_forall _ _) Hfresh).
Qed.

Lemma NoDup_fmap_filter {A B : Type} (f : A → B) (P : A → Prop)
    `{∀ x, Decision (P x)} (l : list A) :
  NoDup (f <$> l) → NoDup (f <$> filter P l).
Proof.
  induction l as [|x l IH]; [done|].
  rewrite fmap_cons, NoDup_cons, filter_cons. intros [Hx Hnd].
  destruct (decide (P x)); [|by apply IH].
  rewrite fmap_cons. apply NoDup_cons. split; [|by apply IH].
  intros (y & Hxy & [_ Hy]%list_elem_of_filter)%list_elem_of_fmap.
  apply Hx, list_elem_of_fmap. by exists y.
Qed.

Lemma Forall_filter_keep {A : Type} (Q P : A → Prop) `{∀ x, Decision (P x)}
    (l : list A) :
  Forall Q l → Forall Q (filter P l).
Proof.
  rewrite !Forall_forall. intros Hall x [_ Hx]%list_elem_of_filter. by apply Hall.
Qed.

Lemma wf_delete_person person_id d : wf d → wf (delete_person person_id d).
Proof.
  intros (Hrefs & Hfresh & Hrels & Hends). unfold wf, delete_person. simpl.
  split; [by apply NoDup_fmap_filter|]. split; [by apply Forall_filter_keep|].
  split; [by apply NoDup_filter|by apply Forall_filter_keep].
Qed.

Lemma wf_add_person now person_id properties d :
  wf d → wf (add_person now person_id properties d).
Proof.
  intros Hwf. unfold add_person.
  destruct (match_person _ d); [by apply wf_create_person|by apply wf_set_where].
Qed.

Lemma wf_config_round c d : wf d → wf (config_round c d).2.
Proof.
  intros Hwf. destruct c as [key m dflt|old_key new_key|key sure| |]; simpl; [| | |done..].
  - case_decide; [done|]. simpl. unfold add_property_key.
    apply wf_set_where. destruct m; by repeat apply wf_on_schema.
  - unfold rename_property_key. apply wf_set_where.
    repeat case_decide; by repeat apply wf_on_schema.
  - destruct sure; [|done]. simpl. unfold delete_property_key.
    by apply wf_set_where, wf_on_schema.
Qed.

Lemma wf_open_person_form r related_person_id gen_number action a d :
  wf d → wf (open_person_form r related_person_id gen_number action a d).2.
Proof.
  intros Hwf. unfold open_person_form.
  destruct (get_schema_details d) as [[schema mandatory]|]; [|done].
  destruct (dialog_result _ _ _ _ _ _) as [result|]; [|done].
  destruct (result !! "id") as [new_person_id|]; [|done].
  destruct (truthy new_person_id); [|done]. simpl.
  by apply wf_link_new_person, wf_create_person.
Qed.

Lemma wf_perform d op : wf d → wf (perform d op).
Proof.
  intros Hwf. destruct op; simpl.
  - unfold init, _ensure_schema_node_exists. by destruct (schema d).
  - by apply wf_add_person.
  - unfold update_person. case_decide; [done|]. by apply wf_set_where.
  - by apply wf_delete_person.
  - unfold add_relationship. case_decide; [|done]. by apply wf_merge_between.
  - by apply wf_config_round.
  - by apply wf_open_person_form.
  - unfold modify_person. destruct (selected a); [|done].
    destruct (match_person _ d); [done|].
    destruct (get_schema_details d) as [[schema mandatory]|], action; try done.
    destruct (py_int _ _); [|done]. by apply wf_set_where.
Qed.

(** Well-formedness is an invariant of everything the programs do. *)
Theorem produced_wf d : produced d → wf d.
Proof.
  intros [ops ->]. induction ops as [|op ops IH] using rev_ind; [apply wf_empty|].
  rewrite foldl_app. simpl. by apply wf_perform.
Qed.

Lemma produced_wf_witness :
  wf (foldl perform empty_db
        [Connect; AddPerson 1 "a" ∅; AddPerson 2 "b" ∅; AddRelationship ascii_upper "a" "b" "spouse_of"]).
Proof. apply produced_wf. by eexists. Defined.

End wf_facts.

(** ** Further properties of the person repository *)

Section repository_facts.

Lemma with_rels_same d : with_rels (rels d) d = d.
Proof. by destruct d. Qed.

Lemma set_where_none sel `{∀ n, Decision (sel n)} f d :
  (∀ n, n ∈ persons d → ¬ sel n) → set_where sel f d = d.
Proof.
  intros Hnone. destruct d as [ps rs sc nx]. unfold set_where, with_persons. simpl in *.
  f_equal. induction ps as [|n ps IH]; [done|].
  rewrite fmap_cons, decide_False by (apply Hnone; left).
  f_equal. apply IH. intros m Hm. apply Hnone. by right.
Qed.

Lemma match_person_nil_no_match idv d n :
  match_person idv d = [] → n ∈ persons d → ¬ has_id idv n.
Proof.
  intros Hnil Hn Hid.
  assert (n ∈ match_person idv d) as Hin by (by apply match_person_elem).
  rewrite Hnil in Hin. by apply elem_of_nil in Hin.
Qed.

Lemma remove_all_lookup names (ps : gmap string value) k :
  remove_all names ps !! k = if decide (k ∈ names) then None else ps !! k.
Proof.
  unfold remove_all. induction names as [|x names IH]; simpl.
  - done.
  - destruct (decide (x = k)) as [->|Hne].
    + rewrite lookup_delete_eq. by rewrite decide_True by left.
    + rewrite lookup_delete_ne, IH by done.
      destruct (decide (k ∈ names)) as [Hin|Hout].
      * by rewrite decide_True by (by right).
      * rewrite decide_False; [done|]. intros [->|?]%elem_of_cons; done.
Qed.

Lemma filter_all {A : Type} (P : A → Prop) `{∀ x, Decision (P x)} (l : list A) :
  (∀ x, x ∈ l → P x) → filter P l = l.
Proof.
  induction l as [|x l IH]; [done|]. intros Hall.
  rewrite filter_cons, decide_True by (apply Hall; left).
  f_equal. apply IH. intros y Hy. apply Hall. by right.
Qed.

Lemma match_pairs_nil x y d :
  match_person x d = [] ∨ match_person y d = [] → match_pairs x y d = [].
Proof.
  intros Hnil. apply elem_of_nil_inv. intros [a b] [Ha Hb]%match_pairs_elem.
  destruct Hnil as [Hnil|Hnil]; rewrite Hnil in *; by eapply elem_of_nil.
Qed.

(** Connecting again never resets the schema: once the record exists,
    [__init__] leaves the whole store as it is, whatever the property menu
    did in between; and what the two schema getters return is the same
    before and after the record is created. *)
Theorem reconnect_keeps_schema cs d :
  init (config_menu cs (init d)) = config_menu cs (init d) ∧
  get_person_schema (init d) = get_person_schema d ∧
  get_mandatory_keys (init d) = get_mandatory_keys d ∧
  persons (init d) = persons d ∧
  rels (init d) = rels d.
Proof.
  assert (∀ d', is_Some (schema d') → init d' = d') as Hid.
  { intros d' [s Hs]. unfold init, _ensure_schema_node_exists. by rewrite Hs. }
  assert (is_Some (schema (init d))) as Hinit.
  { unfold init, _ensure_schema_node_exists. destruct (schema d) eqn:Hs; simpl; eauto. }
  assert (∀ c d', is_Some (schema d') → is_Some (schema (config_round c d').2)) as Hround.
  { intros c d' [s Hs].
    destruct c as [key m dflt|old_key new_key|key sure| |]; simpl; eauto.
    - destruct (decide (key ∈ MANAGED_PROPERTIES)); simpl; [by eauto|].
      unfold add_property_key, on_schema. destruct m; simpl; rewrite Hs; simpl; eauto.
    - unfold rename_property_key, on_schema.
      repeat destruct (decide _); simpl; rewrite ?Hs; simpl; eauto.
    - destruct sure; simpl; [|by eauto]. unfold delete_property_key, on_schema. simpl.
      rewrite Hs. simpl. eauto. }
  assert (∀ d', is_Some (schema d') → is_Some (schema (config_menu cs d'))) as Hmenu.
  { induction cs as [|c cs IH]; intros d' Hd'; [done|].
    assert (config_menu (c :: cs) d' = d' ∨
            config_menu (c :: cs) d' = config_menu cs (config_round c d').2) as [-> | ->]
      by (destruct c; auto); [done|].
    by apply IH, Hround. }
  split; [by apply Hid, Hmenu|].
  unfold init, _ensure_schema_node_exists, get_person_schema, get_mandatory_keys.
  destruct (schema d) as [s|] eqn:Hs; simpl; by rewrite ?Hs.
Qed.

(** [update] then [find]: the removals are gone, the sets are there unless
    removed as well (the [REMOVE] clause runs after the [SET] clause), and
    everything else is as before.  The id itself must not be touched, or
    the Person is no longer found under it. *)
Theorem update_then_find person_id props_to_set props_to_remove d before :
  find_person person_id d = Some before →
  props_to_set !! "id" = None →
  "id" ∉ props_to_remove →
  ∃ after,
    find_person person_id (update_person person_id props_to_set props_to_remove d).2
      = Some after ∧
    (∀ k, k ∈ props_to_remove → after !! k = None) ∧
    (∀ k v, k ∉ props_to_remove → props_to_set !! k = Some v → after !! k = Some v) ∧
    (∀ k, k ∉ props_to_remove → props_to_set !! k = None → after !! k = before !! k).
Proof.
  intros Hfound Hset Hrem.
  exists (remove_all props_to_remove (props_to_set ∪ before)). split.
  - unfold update_person. case_decide as Hempty.
    + destruct Hempty as [-> ->]. simpl. rewrite Hfound. f_equal.
      by rewrite (left_id_L ∅ (∪)).
    + simpl. destruct (find_person_inv _ _ _ Hfound) as (n & l & Hm & Hn & _).
      unfold find_person. rewrite match_person_set_where, Hm.
      * rewrite fmap_cons. simpl. rewrite decide_True; [by rewrite Hn|].
        assert (n ∈ match_person (Some (VStr person_id)) d) as Hin by (rewrite Hm; left).
        by apply match_person_elem in Hin as [_ ?].
      * intros m _ _. rewrite remove_all_lookup, decide_False by done.
        by rewrite lookup_union_r.
  - split; [|split].
    + intros k Hk. by rewrite remove_all_lookup, decide_True.
    + intros k v Hk Hv. rewrite remove_all_lookup, decide_False by done.
      by apply lookup_union_Some_l.
    + intros k Hk Hv. rewrite remove_all_lookup, decide_False by done.
      by rewrite lookup_union_r.
Qed.

Lemma update_then_find_witness :
  let d := add_person 5 "gen1_01" {["dob" := VStr "1900"; "dod" := VStr "1980"]}
             empty_db in
  let before : gmap string value :=
    {["dob" := VStr "1900"; "dod" := VStr "1980"]} ∪
    <["created_at" := VInt 5]> {["id" := VStr "gen1_01"]} in
  let props_to_set : gmap string value := {["dob" := VStr "1901"; "dod" := VStr "x"]} in
  ∃ after,
    find_person "gen1_01" (update_person "gen1_01" props_to_set ["dod"] d).2
      = Some after ∧
    (∀ k, k ∈ ["dod"] → after !! k = None) ∧
    (∀ k v, k ∉ ["dod"] → props_to_set !! k = Some v → after !! k = Some v) ∧
    (∀ k, k ∉ ["dod"] → props_to_set !! k = None → after !! k = before !! k).
Proof.
  intros d before props_to_set.
  apply (update_then_find "gen1_01" props_to_set ["dod"] d before).
  - reflexivity.
  - reflexivity.
  - by_evaluation.
Defined.

(** An operation that names an id no Person has does nothing to the store,
    and [link] and [update] still report success. *)
Theorem missing_person_changes_nothing upper person_id d :
  match_person (Some (VStr person_id)) d = [] →
  (∀ other rel_type,
     upper rel_type ∈ valid_rels →
     add_relationship upper person_id other rel_type d = (Success "linked", d) ∧
     add_relationship upper other person_id rel_type d = (Success "linked", d)) ∧
  (∀ props_to_set props_to_remove,
     ¬ (props_to_set = ∅ ∧ props_to_remove = []) →
     update_person person_id props_to_set props_to_remove d = (Success "updated", d)) ∧
  delete_person person_id d = d ∧
  find_person person_id d = None.
Proof.
  intros Hnone. split; [|split; [|split]].
  - intros other rel_type Hok. unfold add_relationship. rewrite !decide_True by done.
    unfold merge_between.
    rewrite !match_pairs_nil by (rewrite Hnone; auto). simpl.
    by rewrite with_rels_same.
  - intros props_to_set props_to_remove Hne. unfold update_person.
    rewrite decide_False by done. f_equal. apply set_where_none.
    intros n Hn. by apply (match_person_nil_no_match _ d).
  - unfold delete_person. rewrite Hnone. simpl. destruct d as [ps rs sc nx]. simpl.
    f_equal; apply filter_all; intros; repeat split; apply not_elem_of_nil.
  - unfold find_person. by rewrite Hnone.
Qed.

Lemma missing_person_changes_nothing_witness :
  let d := add_person 5 "a" ∅ empty_db in
  (∀ other rel_type,
     ascii_upper rel_type ∈ valid_rels →
     add_relationship ascii_upper "ghost" other rel_type d = (Success "linked", d) ∧
     add_relationship ascii_upper other "ghost" rel_type d = (Success "linked", d)) ∧
  (∀ props_to_set props_to_remove,
     ¬ (props_to_set = ∅ ∧ props_to_remove = []) →
     update_person "ghost" props_to_set props_to_remove d = (Success "updated", d)) ∧
  delete_person "ghost" d = d ∧
  find_person "ghost" d = None.
Proof.
  intros d. apply (missing_person_changes_nothing ascii_upper "ghost" d). reflexivity.
Defined.

End repository_facts.

(** ** Deleting a Person, and where relationships end *)

Section delete_facts.

Lemma delete_person_persons person_id d n :
  n ∈ persons (delete_person person_id d) →
  n ∈ persons d ∧ ¬ has_id (Some (VStr person_id)) n.
Proof.
  unfold delete_person. simpl. intros [Hout Hn]%list_elem_of_filter. split; [done|].
  intros Hid. apply Hout, list_elem_of_fmap. exists n. split; [done|].
  by apply match_person_elem.
Qed.

Lemma match_path_rows idv pat d q :
  q ∈ match_path idv pat d ↔
  ∃ p e, p ∈ persons d ∧ has_id idv p ∧ e ∈ rels d ∧ q ∈ persons d ∧
         other_end pat (node_ref p) e = Some (node_ref q).
Proof.
  unfold match_path, match_path_from. rewrite list_elem_of_bind. split.
  - intros (p & Hq & [Hp Hid]%match_person_elem).
    apply list_elem_of_bind in Hq as (e & Hq & He).
    destruct (other_end pat (node_ref p) e) as [r|] eqn:Hr; [|by apply elem_of_nil in Hq].
    apply node_at_elem in Hq as [Hq Href]. subst r. by exists p, e.
  - intros (p & e & Hp & Hid & He & Hq & Hr). exists p.
    split; [|by apply match_person_elem].
    apply list_elem_of_bind. exists e. split; [|done]. rewrite Hr. by apply node_at_elem.
Qed.

Lemma delete_person_kept person_id d :
  wf d →
  (∀ n, n ∈ persons (delete_person person_id d) ↔
        n ∈ persons d ∧ ¬ has_id (Some (VStr person_id)) n) ∧
  (∀ e, e ∈ rels (delete_person person_id d) ↔
        e ∈ rels d ∧
        ∀ n, n ∈ persons d → has_id (Some (VStr person_id)) n →
             edge_src e ≠ node_ref n ∧ edge_dst e ≠ node_ref n).
Proof.
  intros Hwf.
  assert (∀ r, r ∈ node_ref <$> match_person (Some (VStr person_id)) d ↔
               ∃ n, n ∈ persons d ∧ has_id (Some (VStr person_id)) n ∧ node_ref n = r)
    as Hgone.
  { intros r. rewrite list_elem_of_fmap. split.
    - intros (n & -> & [? ?]%match_person_elem). by exists n.
    - intros (n & ? & ? & <-). exists n. split; [done|]. by apply match_person_elem. }
  split.
  - intros n. split; [apply delete_person_persons|].
    intros [Hn Hid]. unfold delete_person. simpl. apply list_elem_of_filter.
    split; [|done]. rewrite Hgone. intros (m & Hm & Hmid & Href).
    apply Hid. by rewrite <- (same_ref_same_node m n d).
  - intros e. unfold delete_person. simpl. rewrite list_elem_of_filter, !Hgone.
    split.
    + intros [[Hs Hd] He]. split; [done|]. intros n Hn Hid. split.
      * intros Heq. apply Hs. by exists n.
      * intros Heq. apply Hd. by exists n.
    + intros [He Hfree]. split; [|done]. split.
      * intros (n & Hn & Hid & Heq). by destruct (Hfree n Hn Hid).
      * intros (n & Hn & Hid & Heq). by destruct (Hfree n Hn Hid).
Qed.

(** [delete] removes the Person together with its relationships: it is no
    longer found, no [find_relatives] lists it for anybody, every other
    Person is kept, and the relationships kept are those that did not touch
    a deleted node. *)
Theorem delete_then_gone person_id d :
  wf d →
  let d' := delete_person person_id d in
  find_person person_id d' = None ∧
  (∀ other pat q,
     q ∈ find_relatives other pat d' → ¬ has_id (Some (VStr person_id)) q) ∧
  (∀ n, n ∈ persons d' ↔ n ∈ persons d ∧ ¬ has_id (Some (VStr person_id)) n) ∧
  (∀ e, e ∈ rels d' ↔
        e ∈ rels d ∧
        ∀ n, n ∈ persons d → has_id (Some (VStr person_id)) n →
             edge_src e ≠ node_ref n ∧ edge_dst e ≠ node_ref n).
Proof.
  intros Hwf d'. destruct (delete_person_kept person_id d Hwf) as [Hps Hrs].
  split; [|split; [|split]]; [| |done..].
  - unfold find_person. rewrite match_person_none; [done|].
    intros n [_ Hn]%delete_person_persons Hid. apply Hn. split; [by eexists|done].
  - intros other pat q (p & e & _ & _ & _ & Hq & _)%match_path_rows.
    by apply delete_person_persons in Hq as [_ ?].
Qed.

Lemma delete_then_gone_witness :
  let d :=
    (add_relationship ascii_upper "c" "p" "CHILD_OF"
       (add_person 2 "c" ∅ (add_person 1 "p" ∅ empty_db))).2 in
  let d' := delete_person "p" d in
  find_person "p" d' = None ∧
  (∀ other pat q, q ∈ find_relatives other pat d' → ¬ has_id (Some (VStr "p")) q) ∧
  (∀ n, n ∈ persons d' ↔ n ∈ persons d ∧ ¬ has_id (Some (VStr "p")) n) ∧
  (∀ e, e ∈ rels d' ↔
        e ∈ rels d ∧
        ∀ n, n ∈ persons d → has_id (Some (VStr "p")) n →
             edge_src e ≠ node_ref n ∧ edge_dst e ≠ node_ref n).
Proof.
  intros d. apply (delete_then_gone "p" d). by_evaluation.
Defined.

Lemma closed_alt d :
  closed d ↔
  ∀ e, e ∈ rels d →
       (∃ n, n ∈ persons d ∧ node_ref n = edge_src e) ∧
       (∃ n, n ∈ persons d ∧ node_ref n = edge_dst e).
Proof.
  unfold closed. rewrite Forall_forall. apply forall_proper. intros e.
  by rewrite !Exists_exists.
Qed.

Lemma closed_same_refs d d' :
  node_ref <$> persons d' = node_ref <$> persons d → rels d' = rels d →
  closed d → closed d'.
Proof.
  rewrite !closed_alt. intros Hrefs Hrels Hc e He. rewrite Hrels in He.
  assert (∀ r, (∃ n, n ∈ persons d ∧ node_ref n = r) →
               ∃ n, n ∈ persons d' ∧ node_ref n = r) as Hmove.
  { intros r (n & Hn & <-).
    assert (node_ref n ∈ node_ref <$> persons d') as (m & ? & ?)%list_elem_of_fmap.
    { rewrite Hrefs. apply list_elem_of_fmap. by exists n. }
    by exists m. }
  destruct (Hc e He). split; by apply Hmove.
Qed.

Lemma closed_more d d' :
  (∀ n, n ∈ persons d → n ∈ persons d') →
  (∀ e, e ∈ rels d' →
        e ∈ rels d ∨ ∃ a b, a ∈ persons d' ∧ b ∈ persons d' ∧
                            edge_src e = node_ref a ∧ edge_dst e = node_ref b) →
  closed d → closed d'.
Proof.
  rewrite !closed_alt. intros Hps Hrs Hc e [He|(a & b & Ha & Hb & Hs & Hd)]%Hrs.
  - destruct (Hc e He) as [(n & ? & ?) (m & ? & ?)]. split; eauto.
  - split; eauto.
Qed.

Lemma closed_merge_between x y t d : closed d → closed (merge_between x y t d).
Proof.
  apply closed_more; [done|]. simpl.
  intros e [He|([a b] & Hab & ->)]%foldl_merge_rel_elem; [by left|]. right.
  apply match_pairs_elem in Hab as [[Ha _]%match_person_elem [Hb _]%match_person_elem].
  by exists a, b.
Qed.

Lemma closed_link_new_person r new_person_id related_person_id d :
  closed d → closed (link_new_person r new_person_id related_person_id d).
Proof.
  intros Hc. unfold link_new_person. destruct r.
  - unfold link_to_parents. generalize (Some (VStr related_person_id) ::
      (node_id <$> match_path (Some (VStr related_person_id)) (Either "SPOUSE_OF") d)).
    intros pids. revert d Hc. induction pids as [|pid pids IH]; intros d Hc; [done|].
    simpl. by apply IH, closed_merge_between.
  - unfold link_to_parents. generalize
      (node_id <$> match_path (Some (VStr related_person_id)) (Outgoing "CHILD_OF") d).
    intros pids. revert d Hc. induction pids as [|pid pids IH]; intros d Hc; [done|].
    simpl. by apply IH, closed_merge_between.
  - revert Hc. apply closed_more; [done|]. simpl.
    intros e [He|([a b] & Hab & ->)]%foldl_merge_rel_undirected_elem; [by left|]. right.
    apply match_pairs_elem in Hab as [[Ha _]%match_person_elem [Hb _]%match_person_elem].
    by exists a, b.
Qed.

Lemma closed_create_person ps d : closed d → closed (create_person ps d).
Proof.
  apply closed_more; simpl; [|by left]. intros n Hn. apply elem_of_app. by left.
Qed.

Lemma closed_set_where sel `{∀ n, Decision (sel n)} f d :
  closed d → closed (set_where sel f d).
Proof. apply closed_same_refs; [apply set_where_refs|done]. Qed.

Lemma closed_perform d op : wf d → closed d → closed (perform d op).
Proof.
  intros Hwf Hc. destruct op; simpl.
  - unfold init, _ensure_schema_node_exists. by destruct (schema d).
  - unfold add_person.
    destruct (match_person _ d); [by apply closed_create_person|by apply closed_set_where].
  - unfold update_person. case_decide; [done|]. by apply closed_set_where.
  - apply closed_alt. intros e He.
    destruct (delete_person_kept person_id d Hwf) as [Hps Hrs].
    apply Hrs in He as [He Hfree].
    destruct (proj1 (closed_alt d) Hc e He) as [(n & Hn & Hsrc) (m & Hm & Hdst)].
    split.
    + exists n. split; [|done]. apply Hps. split; [done|]. intros Hid.
      by destruct (Hfree n Hn Hid).
    + exists m. split; [|done]. apply Hps. split; [done|]. intros Hid.
      by destruct (Hfree m Hm Hid).
  - unfold add_relationship. case_decide; [|done]. by apply closed_merge_between.
  - destruct c as [key m dflt|old_key new_key|key sure| |]; simpl; [| | |done..].
    + case_decide; [done|]. simpl. unfold add_property_key.
      apply closed_set_where. by destruct m.
    + unfold rename_property_key. apply closed_set_where. by repeat case_decide.
    + destruct sure; [|done]. simpl. by apply closed_set_where.
  - unfold open_person_form.
    destruct (get_schema_details d) as [[schema mandatory]|]; [|done].
    destruct (dialog_result _ _ _ _ _ _) as [result|]; [|done].
    destruct (result !! "id") as [new_person_id|]; [|done].
    destruct (truthy new_person_id); [|done]. simpl.
    by apply closed_link_new_person, closed_create_person.
  - unfold modify_person. destruct (selected a); [|done].
    destruct (match_person _ d); [done|].
    destruct (get_schema_details d) as [[schema mandatory]|], action; try done.
    destruct (py_int _ _); [|done]. by apply closed_set_where.
Qed.

(** No relationship ever dangles: in every store the programs produce, both
    ends of every relationship are Person nodes of the store (creation
    matches both ends first, deletion detaches). *)
Theorem produced_closed d : produced d → closed d.
Proof.
  intros [ops ->].
  enough (wf (foldl perform empty_db ops) ∧ closed (foldl perform empty_db ops)) by tauto.
  induction ops as [|op ops [IHwf IHc]] using rev_ind.
  - split; [apply wf_empty|]. by apply Forall_nil.
  - rewrite foldl_app. simpl. split; [by apply wf_perform|by apply closed_perform].
Qed.

Lemma produced_closed_witness :
  closed (foldl perform empty_db
            [Connect; AddPerson 1 "a" ∅; AddPerson 2 "b" ∅;
             AddRelationship ascii_upper "a" "b" "CHILD_OF"; DeletePerson "b"]).
Proof. apply produced_closed. by eexists. Defined.

(** The three listings of [find_relatives] agree with each other: [b] is
    listed among the children of [a] exactly when [a] is listed among the
    parents of [b], and being listed as a spouse is symmetric. *)
Theorem relatives_are_mutual a b t d :
  ((∃ q, q ∈ find_relatives a (Incoming t) d ∧ has_id (Some (VStr b)) q) ↔
   (∃ p, p ∈ find_relatives b (Outgoing t) d ∧ has_id (Some (VStr a)) p)) ∧
  ((∃ q, q ∈ find_relatives a (Either t) d ∧ has_id (Some (VStr b)) q) ↔
   (∃ p, p ∈ find_relatives b (Either t) d ∧ has_id (Some (VStr a)) p)).
Proof.
  unfold find_relatives.
  assert (∀ x y pat pat',
            (∀ r r' e, other_end pat r e = Some r' → other_end pat' r' e = Some r) →
            (∃ q, q ∈ match_path (Some (VStr x)) pat d ∧ has_id (Some (VStr y)) q) →
            ∃ p, p ∈ match_path (Some (VStr y)) pat' d ∧ has_id (Some (VStr x)) p)
    as Hturn.
  { intros x y pat pat' Hend (q & (p & e & Hp & Hpid & He & Hq & Hr)%match_path_rows & Hqid).
    exists p. split; [|done]. apply match_path_rows. exists q, e.
    split; [done|]. split; [done|]. split; [done|]. split; [done|]. by apply Hend. }
  assert (∀ r r' e, other_end (Incoming t) r e = Some r' →
                    other_end (Outgoing t) r' e = Some r) as Hio.
  { intros r r' e. unfold other_end. case_decide as H1; [|done].
    destruct H1 as [Ht Hd]. intros [= <-]. rewrite decide_True by done. by rewrite Hd. }
  assert (∀ r r' e, other_end (Outgoing t) r e = Some r' →
                    other_end (Incoming t) r' e = Some r) as Hoi.
  { intros r r' e. unfold other_end. case_decide as H1; [|done].
    destruct H1 as [Ht Hd]. intros [= <-]. rewrite decide_True by done. by rewrite Hd. }
  assert (∀ r r' e, other_end (Either t) r e = Some r' →
                    other_end (Either t) r' e = Some r) as Hee.
  { intros r r' e. unfold other_end.
    destruct (decide (edge_type e = t ∧ edge_src e = r)) as [[Ht Hs]|H1].
    - intros [= <-].
      destruct (decide (edge_type e = t ∧ edge_src e = edge_dst e)) as [[_ Heq]|H2].
      + congruence.
      + rewrite decide_True by done. by rewrite Hs.
    - destruct (decide (edge_type e = t ∧ edge_dst e = r)) as [[Ht Hd]|H2]; [|done].
      intros [= <-]. rewrite decide_True by done. by rewrite Hd. }
  split; split; by apply Hturn.
Qed.

End delete_facts.

(** ** Further properties of the schema operations *)

Section schema_operation_facts.

Lemma db_eq d d' :
  persons d = persons d' → rels d = rels d' → schema d = schema d' →
  next_ref d = next_ref d' → d = d'.
Proof. destruct d, d'. simpl. by intros -> -> -> ->. Qed.

Lemma node_eq n ps : node_props n = ps → Node (node_ref n) ps = n.
Proof. destruct n. simpl. by intros ->. Qed.

Lemma set_where_all_persons f d i n :
  persons d !! i = Some n →
  persons (set_where (λ _, True) f d) !! i = Some (Node (node_ref n) (f (node_props n))).
Proof. intros Hi. rewrite set_where_persons, list_lookup_fmap, Hi. done. Qed.

Lemma add_property_key_persons key is_mandatory default_value d :
  persons (add_property_key key is_mandatory default_value d) =
  (λ n, Node (node_ref n) (<[key := default_value]> (node_props n))) <$> persons d.
Proof. unfold add_property_key. by destruct is_mandatory. Qed.

(** [add_key]: the key is in the schema afterwards, appended at the end
    when it was missing and never duplicated; a key that was mandatory
    stays mandatory whatever the flag; and every Person now holds the
    default value under that key, replacing any value it had. *)
Theorem add_property_key_effect key is_mandatory default_value keys mandatory d :
  initialized d keys mandatory →
  let d' := add_property_key key is_mandatory default_value d in
  key ∈ get_person_schema d' ∧
  keys `prefix_of` get_person_schema d' ∧
  occurrences key (get_person_schema d') = Nat.max 1 (occurrences key keys) ∧
  (NoDup keys → NoDup (get_person_schema d')) ∧
  mandatory ⊆ get_mandatory_keys d' ∧
  (is_mandatory = true → key ∈ get_mandatory_keys d') ∧
  (∀ i n, persons d !! i = Some n →
     ∃ n', persons d' !! i = Some n' ∧ node_ref n' = node_ref n ∧
           node_props n' !! key = Some default_value ∧
           ∀ k, k ≠ key → node_props n' !! k = node_props n !! k) ∧
  length (persons d') = length (persons d).
Proof.
  intros Hinit d'.
  pose proof (add_property_key_schema key is_mandatory default_value _ _ _ Hinit) as Hs.
  fold d' in Hs. unfold initialized in Hs.
  unfold get_person_schema, get_mandatory_keys. rewrite Hs.
  cbn [s_keys s_mandatory_keys].
  split; [|split; [|split; [|split; [|split; [|split; [|split]]]]]].
  - destruct (decide (key ∈ keys)); [done|]. apply elem_of_app. right. left.
  - destruct (decide (key ∈ keys)); [done|]. by apply prefix_app_r.
  - destruct (decide (key ∈ keys)) as [Hin|Hout].
    + pose proof (occurrences_pos _ _ Hin). lia.
    + unfold occurrences. rewrite filter_app, length_app.
      fold (occurrences key keys). rewrite (occurrences_absent _ _ Hout).
      rewrite filter_cons, decide_True by done. done.
  - intros Hnd. destruct (decide (key ∈ keys)) as [Hin|Hout]; [done|].
    apply NoDup_app. split; [done|]. split; [|apply NoDup_singleton].
    intros k Hk ->%list_elem_of_singleton. done.
  - destruct is_mandatory; [|done].
    destruct (decide (key ∈ mandatory)); [done|]. intros k Hk. apply elem_of_app. by left.
  - intros ->. destruct (decide (key ∈ mandatory)); [done|]. apply elem_of_app. right. left.
  - intros i n Hi. eexists. split.
    + unfold d'. by rewrite add_property_key_persons, list_lookup_fmap, Hi.
    + split; [done|]. simpl. split; [apply lookup_insert_eq|].
      intros k Hk. by apply lookup_insert_ne.
  - unfold d'. by rewrite add_property_key_persons, length_fmap.
Qed.

Lemma add_property_key_effect_witness :
  let d := add_person 5 "a" {["dob" := VStr "1900"]} (init empty_db) in
  let d' := add_property_key "dob" false (VStr "") d in
  "dob" ∈ get_person_schema d' ∧
  DEFAULT_KEYS `prefix_of` get_person_schema d' ∧
  occurrences "dob" (get_person_schema d') = Nat.max 1 (occurrences "dob" DEFAULT_KEYS) ∧
  (NoDup DEFAULT_KEYS → NoDup (get_person_schema d')) ∧
  DEFAULT_MANDATORY_KEYS ⊆ get_mandatory_keys d' ∧
  (false = true → "dob" ∈ get_mandatory_keys d') ∧
  (∀ i n, persons d !! i = Some n →
     ∃ n', persons d' !! i = Some n' ∧ node_ref n' = node_ref n ∧
           node_props n' !! "dob" = Some (VStr "") ∧
           ∀ k, k ≠ "dob" → node_props n' !! k = node_props n !! k) ∧
  length (persons d') = length (persons d).
Proof.
  intros d.
  apply (add_property_key_effect "dob" false (VStr "") DEFAULT_KEYS
           DEFAULT_MANDATORY_KEYS d).
  reflexivity.
Defined.

(** [delete_key]: the key is in neither list afterwards, the other keys
    keep their order, no Person holds the property any more, nothing else
    changes, and deleting again changes nothing. *)
Theorem delete_property_key_effect key keys mandatory d :
  initialized d keys mandatory →
  let d' := delete_property_key key d in
  get_person_schema d' = filter (λ k, k ≠ key) keys ∧
  get_mandatory_keys d' = filter (λ k, k ≠ key) mandatory ∧
  (key ∉ get_person_schema d') ∧
  (key ∉ get_mandatory_keys d') ∧
  (∀ i n, persons d !! i = Some n →
     ∃ n', persons d' !! i = Some n' ∧ node_ref n' = node_ref n ∧
           node_props n' = delete key (node_props n)) ∧
  rels d' = rels d ∧
  delete_property_key key d' = d'.
Proof.
  intros Hinit d'.
  pose proof (delete_property_key_schema key _ _ _ Hinit) as Hs.
  fold d' in Hs. unfold initialized in Hs.
  unfold get_person_schema, get_mandatory_keys. rewrite Hs.
  cbn [s_keys s_mandatory_keys].
  split; [done|]. split; [done|].
  split; [by intros [? _]%list_elem_of_filter|].
  split; [by intros [? _]%list_elem_of_filter|].
  split; [|split; [done|]].
  - intros i n Hi. eexists. split.
    + unfold d', delete_property_key. by apply set_where_all_persons.
    + done.
  - apply db_eq; [|done| |done].
    + unfold delete_property_key at 1. rewrite set_where_persons. simpl.
      rewrite <- list_fmap_compose. apply list_fmap_ext. intros i n _. simpl.
      f_equal. apply delete_id, lookup_delete_eq.
    + pose proof (delete_property_key_schema key _ _ d' Hs) as Hs'.
      unfold initialized in Hs'. rewrite Hs', Hs.
      rewrite !(filter_all _ (filter _ _)); [done|..];
        by intros k [? _]%list_elem_of_filter.
Qed.

Lemma delete_property_key_effect_witness :
  let d := add_person 5 "a" {["dob" := VStr "1900"]} (init empty_db) in
  let d' := delete_property_key "dob" d in
  get_person_schema d' = filter (λ k, k ≠ "dob") DEFAULT_KEYS ∧
  get_mandatory_keys d' = filter (λ k, k ≠ "dob") DEFAULT_MANDATORY_KEYS ∧
  ("dob" ∉ get_person_schema d') ∧
  ("dob" ∉ get_mandatory_keys d') ∧
  (∀ i n, persons d !! i = Some n →
     ∃ n', persons d' !! i = Some n' ∧ node_ref n' = node_ref n ∧
           node_props n' = delete "dob" (node_props n)) ∧
  rels d' = rels d ∧
  delete_property_key "dob" d' = d'.
Proof.
  intros d.
  apply (delete_property_key_effect "dob" DEFAULT_KEYS DEFAULT_MANDATORY_KEYS d).
  reflexivity.
Defined.

Lemma rename_property_key_frame old_key new_key d :
  rels (rename_property_key old_key new_key d) = rels d ∧
  next_ref (rename_property_key old_key new_key d) = next_ref d.
Proof. unfold rename_property_key, on_schema. by repeat case_decide. Qed.

Lemma renamed_back old_key new_key keys :
  new_key ∉ keys → renamed new_key old_key (renamed old_key new_key keys) = keys.
Proof.
  intros Hout. unfold renamed. rewrite <- list_fmap_compose.
  rewrite <- (list_fmap_id keys) at 2. apply list_fmap_ext. intros i k Hk. simpl.
  destruct (decide (k = old_key)) as [->|Hne].
  - by rewrite decide_True.
  - rewrite decide_False; [done|]. intros ->. apply Hout.
    by apply list_elem_of_lookup_2 in Hk.
Qed.

Lemma renamed_lookup old_key new_key keys i :
  renamed old_key new_key keys !! i =
  (λ k, if decide (k = old_key) then new_key else k) <$> keys !! i.
Proof. unfold renamed. apply list_lookup_fmap. Qed.

Lemma move_property_back old_key new_key (ps : gmap string value) :
  old_key ≠ new_key → ps !! new_key = None →
  move_property new_key old_key (move_property old_key new_key ps) = ps.
Proof.
  intros Hne Hnew. unfold move_property at 2.
  destruct (ps !! old_key) as [v|] eqn:Hold.
  - unfold move_property. rewrite lookup_delete_ne, lookup_insert_eq by done.
    apply map_eq. intros k.
    destruct (decide (k = new_key)) as [->|Hk1]; [by rewrite lookup_delete_eq|].
    rewrite lookup_delete_ne by done.
    destruct (decide (k = old_key)) as [->|Hk2]; [by rewrite lookup_insert_eq|].
    rewrite lookup_insert_ne, lookup_delete_ne, lookup_insert_ne by done. done.
  - unfold move_property. by rewrite Hnew.
Qed.

(** [rename_key] to a name that is not yet a key: the new name takes the
    place of the old one in both lists, the lists keep their length, order
    and distinctness, and no Person loses a value: what was stored under
    the old name is stored under the new one. *)
Theorem rename_to_fresh_key old_key new_key keys mandatory d :
  initialized d keys mandatory →
  new_key ∉ keys →
  (∀ n, n ∈ persons d → node_props n !! new_key = None) →
  let d' := rename_property_key old_key new_key d in
  length (get_person_schema d') = length keys ∧
  (NoDup keys → NoDup (get_person_schema d')) ∧
  (∀ i, get_person_schema d' !! i = Some new_key ↔ keys !! i = Some old_key) ∧
  (∀ i k, k ≠ old_key → keys !! i = Some k → get_person_schema d' !! i = Some k) ∧
  (old_key ∈ mandatory → new_key ∈ get_mandatory_keys d') ∧
  (∀ i n, persons d !! i = Some n →
     ∃ n', persons d' !! i = Some n' ∧ node_ref n' = node_ref n ∧
           node_props n' !! new_key = node_props n !! old_key ∧
           (old_key ≠ new_key → node_props n' !! old_key = None) ∧
           ∀ k, k ≠ old_key → k ≠ new_key → node_props n' !! k = node_props n !! k).
Proof.
  intros Hinit Hfresh Hnone d'.
  pose proof (rename_property_key_schema old_key new_key _ _ _ Hinit) as Hs.
  fold d' in Hs. unfold initialized in Hs.
  unfold get_person_schema, get_mandatory_keys. rewrite Hs.
  cbn [s_keys s_mandatory_keys].
  split; [by unfold renamed; rewrite length_fmap|].
  split; [|split; [|split; [|split]]].
  - intros Hnd. unfold renamed. apply NoDup_fmap_2_strong; [|done].
    intros x y Hx Hy. repeat case_decide; congruence.
  - intros i. rewrite renamed_lookup.
    destruct (keys !! i) as [k|] eqn:Hk; simpl; [|done].
    destruct (decide (k = old_key)) as [->|Hne]; [done|].
    split; [|congruence]. intros [= ->]. destruct Hfresh.
    by apply list_elem_of_lookup_2 in Hk.
  - intros i k Hne Hk. rewrite renamed_lookup, Hk. simpl. by rewrite decide_False.
  - intros Hin. unfold renamed. apply list_elem_of_fmap. exists old_key.
    by rewrite decide_True.
  - intros i n Hi. unfold d'.
    rewrite rename_property_key_persons, list_lookup_fmap, Hi. simpl.
    assert (node_props n !! new_key = None) as Hnew.
    { apply Hnone. by apply list_elem_of_lookup_2 in Hi. }
    destruct (node_props n !! old_key) as [v|] eqn:Hv.
    + rewrite decide_True by (by eexists). eexists. split; [done|]. split; [done|].
      unfold move_property. simpl. rewrite Hv.
      destruct (decide (old_key = new_key)) as [Heq|Hne].
      * rewrite Heq in Hv. congruence.
      * rewrite lookup_delete_ne, lookup_insert_eq by done. split; [done|].
        split; [intros _; apply lookup_delete_eq|].
        intros k Hk1 Hk2. by rewrite lookup_delete_ne, lookup_insert_ne.
    + rewrite decide_False by (by intros [? ?]). exists n.
      split; [done|]. split; [done|]. split; [congruence|]. split; [by intros _|done].
Qed.

Lemma rename_to_fresh_key_witness :
  let d := add_person 5 "a" {["dob" := VStr "1900"]} (init empty_db) in
  let d' := rename_property_key "dob" "born" d in
  length (get_person_schema d') = length DEFAULT_KEYS ∧
  (NoDup DEFAULT_KEYS → NoDup (get_person_schema d')) ∧
  (∀ i, get_person_schema d' !! i = Some "born" ↔ DEFAULT_KEYS !! i = Some "dob") ∧
  (∀ i k, k ≠ "dob" → DEFAULT_KEYS !! i = Some k → get_person_schema d' !! i = Some k) ∧
  ("dob" ∈ DEFAULT_MANDATORY_KEYS → "born" ∈ get_mandatory_keys d') ∧
  (∀ i n, persons d !! i = Some n →
     ∃ n', persons d' !! i = Some n' ∧ node_ref n' = node_ref n ∧
           node_props n' !! "born" = node_props n !! "dob" ∧
           ("dob" ≠ "born" → node_props n' !! "dob" = None) ∧
           ∀ k, k ≠ "dob" → k ≠ "born" → node_props n' !! k = node_props n !! k).
Proof.
  intros d.
  apply (rename_to_fresh_key "dob" "born" DEFAULT_KEYS DEFAULT_MANDATORY_KEYS d).
  - reflexivity.
  - by_evaluation.
  - apply (proj1 (Forall_forall (λ n, node_props n !! "born" = None) (persons d))).
    by_evaluation.
Defined.

(** Renaming to a fresh name and back restores the whole store. *)
Theorem rename_round_trip old_key new_key keys mandatory d :
  initialized d keys mandatory →
  old_key ≠ new_key →
  new_key ∉ keys →
  new_key ∉ mandatory →
  (∀ n, n ∈ persons d → node_props n !! new_key = None) →
  rename_property_key new_key old_key (rename_property_key old_key new_key d) = d.
Proof.
  intros Hinit Hne Hkeys Hmand Hnone.
  pose proof (rename_property_key_schema old_key new_key _ _ _ Hinit) as Hs.
  pose proof (rename_property_key_schema new_key old_key _ _ _ Hs) as Hs'.
  unfold initialized in *.
  destruct (rename_property_key_frame old_key new_key d) as [Hr Hn].
  destruct (rename_property_key_frame new_key old_key
              (rename_property_key old_key new_key d)) as [Hr' Hn'].
  apply db_eq.
  - rewrite !rename_property_key_persons, <- list_fmap_compose.
    rewrite <- (list_fmap_id (persons d)) at 2.
    apply list_fmap_ext. intros i n Hi. simpl.
    assert (node_props n !! new_key = None) as Hnew.
    { apply Hnone. by apply list_elem_of_lookup_2 in Hi. }
    pose proof (move_property_back old_key new_key (node_props n) Hne Hnew) as Hback.
    destruct (node_props n !! old_key) as [v|] eqn:Hv.
    + rewrite (decide_True (P := is_Some (Some v))) by (by eexists). simpl.
      destruct (move_property_set old_key new_key (node_props n) v Hne Hv) as (Hmv & _).
      rewrite decide_True by (rewrite Hmv; by eexists). by apply node_eq.
    + rewrite (decide_False (P := is_Some None)) by (by intros [? ?]).
      rewrite Hnew, decide_False by (by intros [? ?]). done.
  - by rewrite Hr', Hr.
  - rewrite Hs', Hinit. by rewrite !renamed_back.
  - by rewrite Hn', Hn.
Qed.

Lemma rename_round_trip_witness :
  let d := add_person 5 "a" {["dob" := VStr "1900"]} (init empty_db) in
  rename_property_key "born" "dob" (rename_property_key "dob" "born" d) = d.
Proof.
  intros d.
  apply (rename_round_trip "dob" "born" DEFAULT_KEYS DEFAULT_MANDATORY_KEYS d).
  - reflexivity.
  - discriminate.
  - by_evaluation.
  - by_evaluation.
  - apply (proj1 (Forall_forall (λ n, node_props n !! "born" = None) (persons d))).
    by_evaluation.
Defined.

(** Renaming a key to its own name keeps both schema lists but erases the
    property from every Person: the value is copied onto itself and then
    removed. *)
Theorem rename_to_same_name_erases key keys mandatory d :
  initialized d keys mandatory →
  let d' := rename_property_key key key d in
  initialized d' keys mandatory ∧
  rels d' = rels d ∧
  (∀ i n, persons d !! i = Some n →
     ∃ n', persons d' !! i = Some n' ∧ node_ref n' = node_ref n ∧
           node_props n' = delete key (node_props n)).
Proof.
  intros Hinit d'.
  assert (∀ ks, renamed key key ks = ks) as Hid.
  { intros ks. unfold renamed. rewrite <- (list_fmap_id ks) at 2.
    apply list_fmap_ext. intros i k _. simpl. by case_decide. }
  split; [|split].
  - pose proof (rename_property_key_schema key key _ _ _ Hinit) as Hs.
    by rewrite !Hid in Hs.
  - apply rename_property_key_frame.
  - intros i n Hi. unfold d'.
    rewrite rename_property_key_persons, list_lookup_fmap, Hi. simpl.
    destruct (node_props n !! key) as [v|] eqn:Hv.
    + rewrite decide_True by (by eexists). eexists. split; [done|]. split; [done|].
      simpl. unfold move_property. rewrite Hv. by rewrite delete_insert_eq.
    + rewrite decide_False by (by intros [? ?]). exists n.
      split; [done|]. split; [done|]. symmetry. by apply delete_id.
Qed.

Lemma rename_to_same_name_erases_witness :
  let d := add_person 5 "a" {["dob" := VStr "1900"]} (init empty_db) in
  let d' := rename_property_key "dob" "dob" d in
  initialized d' DEFAULT_KEYS DEFAULT_MANDATORY_KEYS ∧
  rels d' = rels d ∧
  (∀ i n, persons d !! i = Some n →
     ∃ n', persons d' !! i = Some n' ∧ node_ref n' = node_ref n ∧
           node_props n' = delete "dob" (node_props n)).
Proof.
  intros d.
  apply (rename_to_same_name_erases "dob" DEFAULT_KEYS DEFAULT_MANDATORY_KEYS d).
  reflexivity.
Defined.

End schema_operation_facts.

(** ** The console menus *)

Section console_facts.

Lemma eqb_empty_false (s : string) : String.eqb s "" = false ↔ s ≠ "".
Proof. apply String.eqb_neq. Qed.

Lemma eqb_empty_true (s : string) : String.eqb s "" = true ↔ s = "".
Proof. apply String.eqb_eq. Qed.

Lemma get_input_required strip lines value rest :
  get_input strip true lines = Some (value, rest) → value ≠ "".
Proof.
  induction lines as [|line lines IH]; [done|]. simpl.
  destruct (String.eqb (strip line) "") eqn:Hblank; simpl; [done|].
  intros [= <- <-]. by apply eqb_empty_false.
Qed.

(** What [get_input] returns is the first answer it accepts, stripped; the
    answers before it were blank, which only happens when an answer is
    required; a required answer is never empty. *)
Theorem get_input_first_answer strip required lines value rest :
  get_input strip required lines = Some (value, rest) →
  ∃ skipped line,
    lines = skipped ++ line :: rest ∧
    value = strip line ∧
    Forall (λ l, strip l = "") skipped ∧
    (required = true → value ≠ "") ∧
    (required = false → skipped = []).
Proof.
  induction lines as [|line lines IH]; [done|]. simpl.
  destruct (String.eqb (strip line) "") eqn:Hblank; simpl.
  - destruct required; simpl.
    + intros (skipped & line' & -> & -> & Hsk & Hreq & _)%IH.
      exists (line :: skipped), line'. split; [done|]. split; [done|].
      split; [|done]. constructor; [by apply eqb_empty_true|done].
    + intros [= <- <-]. exists [], line. by repeat split.
  - intros [= <- <-]. exists [], line. repeat split; try done.
    intros _. by apply eqb_empty_false.
Qed.

Lemma get_input_first_answer_witness :
  ∃ skipped line,
    ["  "; ""; " gen1_01 "; "A"] = skipped ++ line :: ["A"] ∧
    "gen1_01" = ascii_strip line ∧
    Forall (λ l, ascii_strip l = "") skipped ∧
    (true = true → "gen1_01" ≠ "") ∧
    (true = false → skipped = []).
Proof.
  apply (get_input_first_answer ascii_strip true ["  "; ""; " gen1_01 "; "A"] "gen1_01" ["A"]).
  reflexivity.
Defined.

Lemma ask_properties_spec strip schema mandatory_keys acc lines properties rest :
  ask_properties strip schema mandatory_keys acc lines = Some (properties, rest) →
  (∀ k, filled acc k → filled properties k) ∧
  (∀ k, k ∈ schema → k ∈ mandatory_keys → filled properties k) ∧
  (∀ k v, properties !! k = Some v →
          acc !! k = Some v ∨ (k ∈ schema ∧ ∃ s, v = VStr s ∧ s ≠ "")).
Proof.
  revert acc lines. induction schema as [|prop schema IH]; intros acc lines; simpl.
  - intros [= <- <-]. split; [done|]. split; [by intros k ?%elem_of_nil|]. auto.
  - destruct (get_input strip _ lines) as [[value rest0]|] eqn:Hin; [|done].
    intros (Hkeep & Hmand & Hfrom)%IH.
    destruct (String.eqb value "") eqn:Hblank.
    + split; [done|]. split.
      * intros k [->|Hk]%elem_of_cons Hreq; [|by apply Hmand].
        rewrite bool_decide_eq_true_2 in Hin by done.
        apply get_input_required in Hin. by apply eqb_empty_true in Hblank.
      * intros k v [?|(? & ?)]%Hfrom; [by left|]. right. split; [by right|done].
    + apply eqb_empty_false in Hblank.
      assert (filled (<[prop := VStr value]> acc) prop) as Hprop.
      { exists value. split; [apply lookup_insert_eq|done]. }
      split; [|split].
      * intros k (s & Hs & Hne). apply Hkeep.
        destruct (decide (k = prop)) as [->|Hk]; [done|].
        exists s. split; [by rewrite lookup_insert_ne|done].
      * intros k [->|Hk]%elem_of_cons Hreq; [by apply Hkeep|by apply Hmand].
      * intros k v [Hv|(? & ?)]%Hfrom; [|right; split; [by right|done]].
        destruct (decide (k = prop)) as [->|Hk].
        -- rewrite lookup_insert_eq in Hv. injection Hv as <-. right.
           split; [left|]. by exists value.
        -- rewrite lookup_insert_ne in Hv by done. by left.
Qed.

(** [add] then [find], for a new id and for one in use alike: when the
    properties do not name [id], the Person found holds each of them. *)
Lemma find_after_add now person_id properties d :
  properties !! "id" = None →
  ∃ found,
    find_person person_id (add_person now person_id properties d) = Some found ∧
    ∀ k v, properties !! k = Some v → found !! k = Some v.
Proof.
  intros Hid. unfold add_person.
  destruct (match_person (Some (VStr person_id)) d) as [|n l] eqn:Hm.
  - eexists. split.
    + eapply (find_person_first _ _ _ []).
      rewrite match_person_create, Hm. simpl. rewrite decide_True; [done|].
      split; [by eexists|]. unfold node_id. simpl.
      rewrite lookup_union_r, lookup_insert_ne by done. apply lookup_singleton_eq.
    + intros k v Hk. by apply lookup_union_Some_l.
  - exists (properties ∪ node_props n). split.
    + unfold find_person. rewrite match_person_set_where, Hm.
      * rewrite fmap_cons. simpl. rewrite decide_True; [done|].
        assert (n ∈ match_person (Some (VStr person_id)) d) as Hin by (rewrite Hm; left).
        by apply match_person_elem in Hin as [_ ?].
      * intros m _ _. by rewrite lookup_union_r.
    + intros k v Hk. by apply lookup_union_Some_l.
Qed.

(** [add_person_menu] asks for every key of the schema, insists on the
    mandatory ones and sends only the answers that are not empty: the
    Person it adds is found under the id entered and holds a non-empty
    text under every mandatory key of the schema. *)
Theorem add_person_menu_fills_mandatory strip now lines d d' rest :
  add_person_menu strip now lines d = Some (d', rest) →
  "id" ∉ get_person_schema d →
  ∃ person_id properties found,
    d' = add_person now person_id properties d ∧
    person_id ≠ "" ∧
    (∀ k v, properties !! k = Some v →
            k ∈ get_person_schema d ∧ ∃ s, v = VStr s ∧ s ≠ "") ∧
    find_person person_id d' = Some found ∧
    (∀ k, k ∈ get_person_schema d → k ∈ get_mandatory_keys d → filled found k).
Proof.
  unfold add_person_menu. intros Hmenu Hnoid.
  destruct (get_input strip true lines) as [[person_id rest0]|] eqn:Hid; [|done].
  destruct (ask_properties strip _ _ ∅ rest0) as [[properties rest1]|] eqn:Hask; [|done].
  injection Hmenu as <- <-.
  apply get_input_required in Hid.
  apply ask_properties_spec in Hask as (_ & Hmand & Hfrom).
  assert (∀ k v, properties !! k = Some v →
                 k ∈ get_person_schema d ∧ ∃ s, v = VStr s ∧ s ≠ "") as Hprops.
  { intros k v [Hv|?]%Hfrom; [|done]. by rewrite lookup_empty in Hv. }
  assert (properties !! "id" = None) as Hpid.
  { destruct (properties !! "id") eqn:Hp; [|done]. by destruct (Hprops _ _ Hp). }
  destruct (find_after_add now person_id properties d Hpid) as (found & Hfound & Hall).
  exists person_id, properties, found.
  split; [done|]. split; [done|]. split; [done|]. split; [done|].
  intros k Hk Hreq. destruct (Hmand k Hk Hreq) as (s & Hs & Hne).
  exists s. split; [by apply Hall|done].
Qed.

Lemma add_person_menu_fills_mandatory_witness :
  let d := init empty_db in
  let d' :=
    add_person 5 "gen1_01"
      {["firstName" := VStr "A"; "lastName" := VStr "B"; "gender" := VStr "M";
        "dob" := VStr "1900"]} d in
  ∃ person_id properties found,
    d' = add_person 5 person_id properties d ∧
    person_id ≠ "" ∧
    (∀ k v, properties !! k = Some v →
            k ∈ get_person_schema d ∧ ∃ s, v = VStr s ∧ s ≠ "") ∧
    find_person person_id d' = Some found ∧
    (∀ k, k ∈ get_person_schema d → k ∈ get_mandatory_keys d → filled found k).
Proof.
  intros d d'.
  apply (add_person_menu_fills_mandatory ascii_strip 5
           ["gen1_01"; "A"; ""; "B"; "M"; "1900"; ""] d d' []).
  - reflexivity.
  - by_evaluation.
Defined.

Lemma find_after_update person_id props_to_set props_to_remove d before :
  find_person person_id d = Some before →
  props_to_set !! "id" = None →
  "id" ∉ props_to_remove →
  find_person person_id (update_person person_id props_to_set props_to_remove d).2 =
  Some (remove_all props_to_remove (props_to_set ∪ before)).
Proof.
  intros Hfound Hset Hrem. unfold update_person. case_decide as Hempty.
  - destruct Hempty as [-> ->]. simpl. rewrite Hfound. f_equal.
    by rewrite (left_id_L ∅ (∪)).
  - simpl. destruct (find_person_inv _ _ _ Hfound) as (n & l & Hm & Hn & _).
    unfold find_person. rewrite match_person_set_where, Hm.
    + rewrite fmap_cons. simpl. rewrite decide_True; [by rewrite Hn|].
      assert (n ∈ match_person (Some (VStr person_id)) d) as Hin by (rewrite Hm; left).
      by apply match_person_elem in Hin as [_ ?].
    + intros m _ _. rewrite remove_all_lookup, decide_False by done.
      by rewrite lookup_union_r.
Qed.

Lemma ask_changes_spec strip schema mandatory_keys person set0 rem0 lines set1 rem1 rest :
  ask_changes strip schema mandatory_keys person set0 rem0 lines = Some (set1, rem1, rest) →
  (∀ k, k ∈ rem1 → k ∈ rem0 ∨ (k ∈ schema ∧ k ∉ mandatory_keys)) ∧
  (∀ k v, set1 !! k = Some v →
          set0 !! k = Some v ∨ (k ∈ schema ∧ ∃ s, v = VStr s ∧ s ≠ "")) ∧
  (∀ k, is_Some (set0 !! k) → is_Some (set1 !! k)) ∧
  (∀ k, k ∈ schema → k ∈ mandatory_keys → set1 !! k = None → filled person k).
Proof.
  revert set0 rem0 lines. induction schema as [|prop schema IH]; intros set0 rem0 lines; simpl.
  - intros [= <- <- <-]. split; [auto|]. split; [auto|]. split; [auto|].
    by intros k ?%elem_of_nil.
  - destruct (get_input strip _ lines) as [[new_val rest0]|] eqn:Hin; [|done].
    assert (prop ∈ mandatory_keys → new_val ≠ "") as Hreq.
    { intros Hm. rewrite bool_decide_eq_true_2 in Hin by done.
      by apply get_input_required in Hin. }
    destruct (decide (VStr new_val = default (VStr "") (person !! prop))) as [Hsame|Hdiff].
    { intros (Hrem & Hset & Hmono & Hmand)%IH.
      split; [|split; [|split; [done|]]].
      - intros k [?|[? ?]]%Hrem; [by left|]. right. split; [by right|done].
      - intros k v [?|[? ?]]%Hset; [by left|]. right. split; [by right|done].
      - intros k [->|Hk]%elem_of_cons Hm Hnone; [|by apply Hmand].
        exists new_val. split; [|by apply Hreq].
        destruct (person !! prop) as [v|]; simpl in Hsame; [by rewrite Hsame|].
        injection Hsame as Hsame. by destruct (Hreq Hm). }
    destruct (String.eqb new_val "") eqn:Hblank; simpl.
    + apply eqb_empty_true in Hblank.
      destruct (bool_decide (prop ∈ mandatory_keys)) eqn:Hm; simpl.
      * apply bool_decide_eq_true in Hm. by destruct (Hreq Hm).
      * apply bool_decide_eq_false in Hm.
        intros (Hrem & Hset & Hmono & Hmand)%IH.
        split; [|split; [|split; [done|]]].
        -- intros k [[?| ->%list_elem_of_singleton]%elem_of_app|[? ?]]%Hrem.
           ++ by left.
           ++ right. split; [left|done].
           ++ right. split; [by right|done].
        -- intros k v [?|[? ?]]%Hset; [by left|]. right. split; [by right|done].
        -- intros k [->|Hk]%elem_of_cons Hreq' Hnone; [done|by apply Hmand].
    + apply eqb_empty_false in Hblank.
      intros (Hrem & Hset & Hmono & Hmand)%IH.
      split; [|split; [|split]].
      * intros k [?|[? ?]]%Hrem; [by left|]. right. split; [by right|done].
      * intros k v [Hv|[? ?]]%Hset; [|right; split; [by right|done]].
        destruct (decide (k = prop)) as [->|Hk].
        -- rewrite lookup_insert_eq in Hv. injection Hv as <-. right.
           split; [left|]. by exists new_val.
        -- rewrite lookup_insert_ne in Hv by done. by left.
      * intros k Hk. apply Hmono.
        destruct (decide (k = prop)) as [->|Hne]; [by rewrite lookup_insert_eq|].
        by rewrite lookup_insert_ne.
      * intros k [->|Hk]%elem_of_cons Hreq' Hnone; [|by apply Hmand].
        assert (is_Some (set1 !! prop)) as [v Hv]
          by (apply Hmono; by rewrite lookup_insert_eq).
        congruence.
Qed.

(** [modify_person_menu] never clears a mandatory property: it removes
    only keys of the schema that are not mandatory, sets only texts that are
    not empty, and afterwards the Person holds a non-empty text under every
    mandatory key of the schema; what is not a key of the schema is not
    touched.  For an id no Person has, it reports the error and changes
    nothing. *)
Theorem modify_person_menu_keeps_mandatory strip lines d o d' rest :
  modify_person_menu strip lines d = Some (o, d', rest) →
  "id" ∉ get_person_schema d →
  ∃ person_id,
    person_id ≠ "" ∧
    match find_person person_id d with
    | None => o = Rejected "Person not found" ∧ d' = d
    | Some before =>
        ∃ after,
          find_person person_id d' = Some after ∧
          (∀ k, k ∈ get_person_schema d → k ∈ get_mandatory_keys d → filled after k) ∧
          (∀ k, k ∈ get_person_schema d → before !! k ≠ None → after !! k = None →
                k ∉ get_mandatory_keys d) ∧
          (∀ k, k ∉ get_person_schema d → after !! k = before !! k)
    end.
Proof.
  unfold modify_person_menu. intros Hmenu Hnoid.
  destruct (get_input strip true lines) as [[person_id rest0]|] eqn:Hid; [|done].
  apply get_input_required in Hid. exists person_id. split; [done|].
  destruct (find_person person_id d) as [before|] eqn:Hfound.
  - destruct (ask_changes strip _ _ before ∅ [] rest0) as [[[set1 rem1] rest1]|] eqn:Hask;
      [|done].
    injection Hmenu as <- <- <-.
    apply ask_changes_spec in Hask as (Hrem & Hset & _ & Hmand).
    assert (∀ k, k ∈ rem1 → k ∈ get_person_schema d ∧ k ∉ get_mandatory_keys d) as Hrem'.
    { intros k [?%elem_of_nil|?]%Hrem; done. }
    assert (∀ k v, set1 !! k = Some v →
                   k ∈ get_person_schema d ∧ ∃ s, v = VStr s ∧ s ≠ "") as Hset'.
    { intros k v [Hv|?]%Hset; [|done]. by rewrite lookup_empty in Hv. }
    assert (set1 !! "id" = None) as Hsid.
    { destruct (set1 !! "id") eqn:Hp; [|done]. by destruct (Hset' _ _ Hp). }
    assert ("id" ∉ rem1) as Hrid by (by intros [? _]%Hrem').
    eexists. split; [by apply find_after_update|].
    split; [|split].
    + intros k Hk Hreq. unfold filled. rewrite remove_all_lookup.
      rewrite decide_False by (intros [_ ?]%Hrem'; done).
      destruct (set1 !! k) as [v|] eqn:Hv.
      * destruct (Hset' _ _ Hv) as (_ & s & -> & Hne).
        exists s. split; [by apply lookup_union_Some_l|done].
      * rewrite lookup_union_r by done. by apply Hmand.
    + intros k Hk Hbefore. rewrite remove_all_lookup.
      destruct (decide (k ∈ rem1)) as [[_ ?]%Hrem'|Hout]; [done|].
      intros Hnone. apply lookup_union_None in Hnone as [_ ?]. done.
    + intros k Hk. rewrite remove_all_lookup.
      rewrite decide_False by (intros [? _]%Hrem'; done).
      apply lookup_union_r. destruct (set1 !! k) eqn:Hv; [|done].
      by destruct (Hset' _ _ Hv).
  - by injection Hmenu as <- <- <-.
Qed.

Lemma modify_person_menu_keeps_mandatory_witness :
  let d :=
    add_person 5 "gen1_01"
      {["firstName" := VStr "A"; "lastName" := VStr "B"; "gender" := VStr "M";
        "dob" := VStr "1900"; "dod" := VStr "1980"]} (init empty_db) in
  let lines := ["gen1_01"; "A"; ""; "C"; "M"; "1900"; ""] in
  let d' :=
    (update_person "gen1_01" {["lastName" := VStr "C"]} ["dod"] d).2 in
  ∃ person_id,
    person_id ≠ "" ∧
    match find_person person_id d with
    | None => Success "updated" = Rejected "Person not found" ∧ d' = d
    | Some before =>
        ∃ after,
          find_person person_id d' = Some after ∧
          (∀ k, k ∈ get_person_schema d → k ∈ get_mandatory_keys d → filled after k) ∧
          (∀ k, k ∈ get_person_schema d → before !! k ≠ None → after !! k = None →
                k ∉ get_mandatory_keys d) ∧
          (∀ k, k ∉ get_person_schema d → after !! k = before !! k)
    end.
Proof.
  intros d lines d'.
  apply (modify_person_menu_keeps_mandatory ascii_strip lines d (Success "updated") d' []).
  - reflexivity.
  - by_evaluation.
Defined.

End console_facts.

(** ** Further properties of the navigation *)

Section navigation_more_facts.

(** View-children followed by go-back shows the view one came from, with
    the history it had; only the selection is gone. *)
Theorem view_children_then_go_back a id :
  reachable a →
  selected a = Some id →
  let a' := go_back (view_children a) in
  view_mode a' = view_mode a ∧
  view_context_id a' = view_context_id a ∧
  history a' = history a ∧
  current_person_id a' = None ∧
  back_button a' = bool_decide (history a ≠ []).
Proof.
  intros Hreach Hsel a'.
  destruct (reachable_readable a Hreach) as [n [Hv _]%abstraction_inv].
  unfold a', view_children, go_back. rewrite Hsel. simpl. rewrite pop_snoc.
  destruct (view_mode a) eqn:Hm; simpl; [|done].
  by apply view_of_generation in Hv as [-> _].
Qed.

Lemma view_children_then_go_back_witness :
  let a := handle (Select (Some "gen1_01")) initialize_main_app in
  let a' := go_back (view_children a) in
  view_mode a' = view_mode a ∧
  view_context_id a' = view_context_id a ∧
  history a' = history a ∧
  current_person_id a' = None ∧
  back_button a' = bool_decide (history a ≠ []).
Proof.
  intros a. apply (view_children_then_go_back a "gen1_01").
  - unfold a. apply reachable_step, reachable_start.
  - reflexivity.
Defined.

(** The buttons follow the state: in every reachable state go-back is
    enabled exactly when there is a history to go back to, and the buttons
    that act on a person are enabled exactly when a row is selected. *)
Theorem buttons_follow_state a :
  reachable a →
  back_button a = bool_decide (history a ≠ []) ∧
  person_buttons a = bool_decide (is_Some (current_person_id a)).
Proof.
  induction 1 as [|ev a _ [IHb IHp]]; [done|].
  destruct ev as [sel| | | |]; simpl.
  - by destruct sel.
  - unfold view_children. by destruct (selected a).
  - unfold go_back. destruct (pop (history a)) as [[rest [m c]]|]; [|done].
    by destruct m.
  - done.
  - unfold refresh_current_view. by destruct (view_mode a).
Qed.

Lemma buttons_follow_state_witness :
  let a := handle ViewChildren (handle (Select (Some "gen1_01")) initialize_main_app) in
  back_button a = bool_decide (history a ≠ []) ∧
  person_buttons a = bool_decide (is_Some (current_person_id a)).
Proof.
  intros a. apply buttons_follow_state.
  unfold a. apply reachable_step, reachable_step, reachable_start.
Defined.

End navigation_more_facts.

(** ** The form of the graphical program *)

Section form_facts.

Lemma open_person_form_added r related_person_id gen_number action a a' d d' :
  open_person_form r related_person_id gen_number action a d =
    (Success "added", a', d') →
  ∃ schema mandatory typed asked_id idv,
    get_schema_details d = Some (schema, mandatory) ∧
    action = Submit typed asked_id ∧
    submit (Some r) related_person_id schema gen_number typed asked_id d !! "id"
      = Some idv ∧
    truthy idv = true ∧
    a' = refresh_current_view a ∧
    d' = link_new_person r (Some idv) related_person_id
           (create_person
              (filter (λ kv : string * value, truthy kv.2 = true ∧ kv.1 ≠ "id")
                 (submit (Some r) related_person_id schema gen_number typed
                    asked_id d)
               ∪ {["id" := idv]}) d).
Proof.
  unfold open_person_form.
  destruct (get_schema_details d) as [[schema mandatory]|]; [|done].
  destruct action as [|typed asked_id]; [done|]. unfold dialog_result. cbv zeta.
  destruct (submit _ _ _ _ _ _ _ !! "id") as [idv|] eqn:Hid; [|done].
  destruct (truthy idv) eqn:Ht; [|done].
  intros [= <- <-]. by exists schema, mandatory, typed, asked_id, idv.
Qed.

Lemma link_to_parents_frame child_id parent_ids d :
  persons (link_to_parents child_id parent_ids d) = persons d ∧
  schema (link_to_parents child_id parent_ids d) = schema d.
Proof.
  unfold link_to_parents. revert d.
  induction parent_ids as [|pid pids IH]; intros d; simpl; [done|].
  destruct (IH (merge_between child_id pid "CHILD_OF" d)) as [-> ->]. done.
Qed.

Lemma link_new_person_frame r new_person_id related_person_id d :
  persons (link_new_person r new_person_id related_person_id d) = persons d ∧
  schema (link_new_person r new_person_id related_person_id d) = schema d.
Proof. unfold link_new_person. destruct r; [apply link_to_parents_frame..|done]. Qed.

Lemma link_to_parents_rels child_id parent_ids d e :
  e ∈ rels (link_to_parents child_id parent_ids d) ↔
  e ∈ rels d ∨
  ∃ pid c q, pid ∈ parent_ids ∧ c ∈ match_person child_id d ∧
             q ∈ match_person pid d ∧
             e = Edge (node_ref c) "CHILD_OF" (node_ref q).
Proof.
  unfold link_to_parents. revert d.
  induction parent_ids as [|pid pids IH]; intros d; simpl.
  - split; [by left|]. intros [?|(pid & c & q & Hpid & _)]; [done|].
    by apply elem_of_nil in Hpid.
  - rewrite IH. simpl. rewrite foldl_merge_rel_elem.
    change (match_person child_id (merge_between child_id pid "CHILD_OF" d))
      with (match_person child_id d).
    split.
    + intros [[He|([c q] & [Hc Hq]%match_pairs_elem & ->)]|(pid' & c & q & Hpid & Hc & Hq & ->)].
      * by left.
      * right. exists pid, c, q. split; [left|done].
      * right. exists pid', c, q. split; [by right|done].
    + intros [He|(pid' & c & q & [->|Hpid]%elem_of_cons & Hc & Hq & ->)].
      * by left; left.
      * left. right. exists (c, q). split; [by apply match_pairs_elem|done].
      * right. by exists pid', c, q.
Qed.

(** The node that was just created is on no path, whatever its id. *)
Lemma match_path_create_any idv pat ps d :
  wf d → match_path idv pat (create_person ps d) = match_path idv pat d.
Proof.
  intros Hwf. unfold match_path. rewrite match_person_create, bind_app.
  assert (match_path_from (Node (next_ref d) ps) pat (create_person ps d) = [])
    as Hnew.
  { unfold match_path_from. apply bind_none. intros e He. simpl in He.
    destruct (other_end pat _ e) as [r|] eqn:Hr; [|done]. exfalso.
    destruct (wf_ends d e Hwf He) as [Hs Hd]. simpl in Hr. revert Hr.
    unfold other_end. destruct pat; repeat case_decide; intros; try done; lia. }
  replace ((if decide (has_id idv (Node (next_ref d) ps))
            then [Node (next_ref d) ps] else [])
           ≫= λ p, match_path_from p pat (create_person ps d)) with (@nil node).
  - rewrite app_nil_r. apply Forall_bind_ext, Forall_forall. intros p _.
    by apply match_path_from_create.
  - case_decide; [|done]. simpl. by rewrite Hnew.
Qed.

(** Seen from a node that no relationship enters, the undirected [MERGE]
    is the directed one. *)
Lemma foldl_undirected_directed t r rs pairs :
  (∀ ab, ab ∈ pairs → node_ref ab.1 = r) →
  (∀ e, e ∈ rs → edge_dst e = r → edge_src e = r) →
  foldl (merge_rel_undirected t) rs pairs = foldl (merge_rel t) rs pairs.
Proof.
  revert rs. induction pairs as [|ab pairs IH]; intros rs Hfst Hin; simpl; [done|].
  assert (merge_rel_undirected t rs ab = merge_rel t rs ab) as ->.
  { unfold merge_rel_undirected, merge_rel.
    destruct (decide (Edge (node_ref ab.1) t (node_ref ab.2) ∈ rs)) as [He|He].
    - by rewrite decide_True by (by left).
    - rewrite decide_False; [done|]. intros [?|He']; [done|]. apply He.
      pose proof (Hin _ He') as Hsrc. simpl in Hsrc.
      rewrite (Hfst ab) in Hsrc by left. specialize (Hsrc eq_refl).
      by rewrite (Hfst ab), <- Hsrc in He' |- * by left. }
  apply IH; [intros ab' ?; apply Hfst; by right|].
  intros e. unfold merge_rel. case_decide; [apply Hin|].
  intros [?| ->%list_elem_of_singleton]%elem_of_app; [by apply Hin|].
  simpl. intros _. apply Hfst. left.
Qed.

(** Whatever relative the form adds, a successful submit creates exactly
    one Person, with an id that is not empty, and refreshes the view; the
    schema is untouched and no check is made that the id is free: the new
    Person is simply one more match of its id.  When the id was free, the
    relationships added are exactly those that leave the new Person, of the
    kind of the form, to every Person whose id is among the link targets
    (the selected person and that person's spouses for a child, the
    selected person's parents for a sibling, the selected person for a
    spouse). *)
Theorem add_relative_links r related_person_id gen_number action a a' d d' :
  wf d →
  open_person_form r related_person_id gen_number action a d =
    (Success "added", a', d') →
  ∃ new,
    a' = refresh_current_view a ∧
    persons d' = persons d ++ [new] ∧
    node_ref new = next_ref d ∧
    schema d' = schema d ∧
    (∃ idv, node_id new = Some idv ∧ truthy idv = true) ∧
    match_person (node_id new) d' = match_person (node_id new) d ++ [new] ∧
    ((∀ n, n ∈ persons d → node_id n ≠ node_id new) →
     ∀ e, e ∈ rels d' ↔
          e ∈ rels d ∨
          ∃ pid q, pid ∈ link_targets r related_person_id d ∧
                   q ∈ persons d' ∧ has_id pid q ∧
                   e = Edge (node_ref new) (link_kind r) (node_ref q)).
Proof.
  intros Hwf (schema & mandatory & typed & asked_id & idv & _ & _ & _ & Ht & -> & ->)
    %open_person_form_added.
  set (ps := filter _ _ ∪ {["id" := idv]}).
  set (d1 := create_person ps d). set (new := Node (next_ref d) ps).
  assert (node_id new = Some idv) as Hnid.
  { unfold node_id, new, ps. simpl. rewrite lookup_union_r; [apply lookup_singleton_eq|].
    apply map_lookup_filter_None. right. by intros v _ [_ Hk]. }
  assert (has_id (Some idv) new) as Hhas by (split; [by eexists|done]).
  destruct (link_new_person_frame r (Some idv) related_person_id d1) as [Hps Hsch].
  assert (match_person (Some idv) d1 = match_person (Some idv) d ++ [new]) as Hmatch.
  { unfold d1. by rewrite match_person_create, decide_True. }
  exists new. split; [done|]. split; [by rewrite Hps|]. split; [done|].
  split; [by rewrite Hsch|]. split; [by exists idv|]. split.
  { rewrite Hnid, <- Hmatch. unfold match_person. by rewrite Hps. }
  rewrite Hnid. intros Hfree e.
  rewrite (match_person_none _ d Hfree) in Hmatch. simpl in Hmatch.
  assert (∀ pid q, q ∈ match_person pid d1 ↔
                   q ∈ persons (link_new_person r (Some idv) related_person_id d1) ∧
                   has_id pid q) as Hq.
  { intros pid q. rewrite Hps. apply match_person_elem. }
  destruct r; unfold link_new_person, link_targets, link_kind, find_relatives.
  - rewrite link_to_parents_rels, Hmatch. unfold d1 at 2.
    rewrite match_path_create_any by done. split.
    + intros [?|(pid & c & q & Hpid & ->%list_elem_of_singleton & Hin & ->)]; [by left|].
      right. exists pid, q. split; [done|]. by apply Hq in Hin as [? ?].
    + intros [?|(pid & q & Hpid & Hin & Hid & ->)]; [by left|].
      right. exists pid, new, q. split; [done|]. split; [by left|].
      split; [|done]. by apply Hq.
  - rewrite link_to_parents_rels, Hmatch. unfold d1 at 2.
    rewrite match_path_create_any by done. split.
    + intros [?|(pid & c & q & Hpid & ->%list_elem_of_singleton & Hin & ->)]; [by left|].
      right. exists pid, q. split; [done|]. by apply Hq in Hin as [? ?].
    + intros [?|(pid & q & Hpid & Hin & Hid & ->)]; [by left|].
      right. exists pid, new, q. split; [done|]. split; [by left|].
      split; [|done]. by apply Hq.
  - simpl. rewrite (foldl_undirected_directed _ (next_ref d)).
    + rewrite foldl_merge_rel_elem. split.
      * intros [?|([c q] & [Hc Hin]%match_pairs_elem & ->)]; [by left|].
        rewrite Hmatch in Hc. apply list_elem_of_singleton in Hc as ->.
        right. exists (Some (VStr related_person_id)), q.
        split; [left|]. by apply Hq in Hin as [? ?].
      * intros [?|(pid & q & ->%list_elem_of_singleton & Hin & Hid & ->)]; [by left|].
        right. exists (new, q). split; [|done]. apply match_pairs_elem.
        split; [rewrite Hmatch; left|]. by apply Hq.
    + intros [c q] [Hc _]%match_pairs_elem. rewrite Hmatch in Hc.
      by apply list_elem_of_singleton in Hc as ->.
    + intros e' He' Hdst. destruct (wf_ends d e' Hwf He'). lia.
Qed.

Lemma add_relative_links_witness :
  let d := add_person 1 "p" ∅ (init empty_db) in
  let a' := refresh_current_view initial in
  let d' := (open_person_form spouse "p" 1 (Submit ∅ (Some "w")) initial d).2 in
  ∃ new,
    a' = refresh_current_view initial ∧
    persons d' = persons d ++ [new] ∧
    node_ref new = next_ref d ∧
    schema d' = schema d ∧
    (∃ idv, node_id new = Some idv ∧ truthy idv = true) ∧
    match_person (node_id new) d' = match_person (node_id new) d ++ [new] ∧
    ((∀ n, n ∈ persons d → node_id n ≠ node_id new) →
     ∀ e, e ∈ rels d' ↔
          e ∈ rels d ∨
          ∃ pid q, pid ∈ link_targets spouse "p" d ∧
                   q ∈ persons d' ∧ has_id pid q ∧
                   e = Edge (node_ref new) (link_kind spouse) (node_ref q)).
Proof.
  intros d a' d'.
  apply (add_relative_links spouse "p" 1 (Submit ∅ (Some "w")) initial a' d d').
  - by_evaluation.
  - reflexivity.
Defined.

Lemma foldl_insert_lookup (g : string → value) l (acc : gmap string value) k :
  foldl (λ res prop, <[prop := g prop]> res) acc l !! k =
  if decide (k ∈ l) then Some (g k) else acc !! k.
Proof.
  revert acc. induction l as [|x l IH]; intros acc; simpl.
  - done.
  - rewrite IH. destruct (decide (k ∈ l)) as [Hin|Hout].
    + by rewrite decide_True by (by right).
    + destruct (decide (k = x)) as [->|Hne].
      * rewrite lookup_insert_eq. by rewrite decide_True by left.
      * rewrite lookup_insert_ne by done. rewrite decide_False; [done|].
        by intros [?|?]%elem_of_cons.
Qed.

Lemma form_schema_elem schema k :
  k ∈ form_schema schema ↔ k ∈ schema ∧ k ≠ "genNumber".
Proof. unfold form_schema. rewrite list_elem_of_filter. tauto. Qed.

Lemma entries_result_lookup schema gen_number typed k :
  entries_result schema gen_number typed !! k =
  if decide (k ∈ schema ∧ k ≠ "genNumber") then Some (VStr (entry_text typed k))
  else if decide (k = "genNumber") then Some (VInt gen_number)
  else None.
Proof.
  unfold entries_result.
  rewrite (foldl_insert_lookup (λ prop, VStr (entry_text typed prop))).
  destruct (decide (k ∈ form_schema schema)) as [Hin|Hout].
  - by rewrite decide_True by (by apply form_schema_elem).
  - rewrite decide_False by (by rewrite <- form_schema_elem).
    destruct (decide (k = "genNumber")) as [->|Hne].
    + apply lookup_singleton_eq.
    + by apply lookup_singleton_ne.
Qed.

Lemma submit_lookup_other r related_person_id schema gen_number typed asked_id d k :
  k ≠ "id" →
  submit r related_person_id schema gen_number typed asked_id d !! k =
  entries_result schema gen_number typed !! k.
Proof.
  intros Hk. unfold submit.
  destruct r as [[| |]|]; [| | |done].
  - repeat case_decide; try done. by rewrite lookup_insert_ne.
  - repeat case_decide; try done.
    destruct (match_path _ _ d); [done|]. by rewrite lookup_insert_ne.
  - destruct asked_id; [by rewrite lookup_insert_ne|by rewrite lookup_delete_ne].
Qed.

Lemma truthy_text s : truthy (VStr s) = true ↔ s ≠ "".
Proof.
  simpl. destruct (String.eqb s "") eqn:Heq; simpl.
  - apply eqb_empty_true in Heq. split; [done|]. by intros [].
  - by apply eqb_empty_false in Heq.
Qed.

Lemma truthy_number z : truthy (VInt z) = true ↔ z ≠ 0%Z.
Proof. simpl. destruct (Z.eqb_spec z 0); simpl; split; done. Qed.

Lemma open_person_form_new_props
    r related_person_id gen_number action a a' d d' :
  open_person_form r related_person_id gen_number action a d =
    (Success "added", a', d') →
  ∃ schema mandatory typed asked_id new,
    get_schema_details d = Some (schema, mandatory) ∧
    action = Submit typed asked_id ∧
    persons d' = persons d ++ [new] ∧
    ∀ k, k ≠ "id" →
         node_props new !! k =
         if decide (k ∈ schema ∧ k ≠ "genNumber") then
           if decide (entry_text typed k = "") then None
           else Some (VStr (entry_text typed k))
         else if decide (k = "genNumber" ∧ gen_number ≠ 0%Z) then
           Some (VInt gen_number)
         else None.
Proof.
  intros (schema & mandatory & typed & asked_id & idv & Hschema & -> & _ & _ & _ & ->)
    %open_person_form_added.
  set (result := submit (Some r) related_person_id schema gen_number typed asked_id d).
  set (ps := filter _ result ∪ {["id" := idv]}).
  exists schema, mandatory, typed, asked_id, (Node (next_ref d) ps).
  split; [done|]. split; [done|].
  split; [by rewrite (proj1 (link_new_person_frame _ _ _ _))|].
  intros k Hk. simpl. unfold ps.
  rewrite lookup_union_l by (by apply lookup_singleton_ne).
  pose proof (submit_lookup_other (Some r) related_person_id schema gen_number
                typed asked_id d k Hk) as Hres. fold result in Hres.
  rewrite entries_result_lookup in Hres.
  destruct (decide (k ∈ schema ∧ k ≠ "genNumber")) as [Hin|Hout].
  - destruct (decide (entry_text typed k = "")) as [Hempty|Hfull].
    + apply map_lookup_filter_None. right. intros v Hv [Ht _].
      rewrite Hres in Hv. injection Hv as <-. apply truthy_text in Ht. done.
    + apply map_lookup_filter_Some. split; [done|]. split; [|done].
      by apply truthy_text.
  - destruct (decide (k = "genNumber")) as [->|Hne].
    + destruct (decide (gen_number = 0%Z)) as [Hz|Hnz].
      * rewrite decide_False by tauto.
        apply map_lookup_filter_None. right. intros v Hv [Ht _].
        rewrite Hres in Hv. injection Hv as <-. apply truthy_number in Ht. done.
      * rewrite decide_True by done.
        apply map_lookup_filter_Some. split; [done|]. split; [|done].
        by apply truthy_number.
    + rewrite decide_False by tauto. apply map_lookup_filter_None. by left.
Qed.

(** The properties the form gives to the Person it creates, the id apart:
    each schema key whose entry holds a text gets that text, a key whose
    entry is empty is left out whether or not it is mandatory, the
    generation number is the one the form was opened with (left out when it
    is 0), and nothing else is set: no creation time is recorded. *)
Theorem new_relative_content
    r related_person_id gen_number typed asked_id a a' d d' schema mandatory :
  get_schema_details d = Some (schema, mandatory) →
  open_person_form r related_person_id gen_number (Submit typed asked_id) a d =
    (Success "added", a', d') →
  ∃ new,
    persons d' = persons d ++ [new] ∧
    (∀ k, k ≠ "id" →
          node_props new !! k =
          if decide (k ∈ schema ∧ k ≠ "genNumber") then
            if decide (entry_text typed k = "") then None
            else Some (VStr (entry_text typed k))
          else if decide (k = "genNumber" ∧ gen_number ≠ 0%Z) then
            Some (VInt gen_number)
          else None) ∧
    (∀ k, k ∈ mandatory → k ≠ "id" → entry_text typed k = "" → k ≠ "genNumber" →
          node_props new !! k = None) ∧
    ("created_at" ∉ schema → node_props new !! "created_at" = None).
Proof.
  intros Hschema
    (schema' & mandatory' & typed' & asked' & new & Hschema' & [= <- <-] & Hps & Hlook)
    %open_person_form_new_props.
  rewrite Hschema in Hschema'. injection Hschema' as <- <-.
  exists new. split; [done|]. split; [done|]. split.
  - intros k Hm Hid Hempty Hgen. rewrite Hlook by done.
    destruct (decide (k ∈ schema ∧ k ≠ "genNumber")).
    + by rewrite decide_True.
    + rewrite decide_False; [done|]. tauto.
  - intros Hout. rewrite Hlook by done.
    rewrite decide_False by tauto. rewrite decide_False; [done|].
    by intros [? _].
Qed.

Lemma new_relative_content_witness :
  let d := add_person 1 "p" ∅ (init empty_db) in
  let typed : gmap string string := {["firstName" := "W"]} in
  let a' := refresh_current_view initial in
  let d' := (open_person_form spouse "p" 1 (Submit typed (Some "w")) initial d).2 in
  ∃ new,
    persons d' = persons d ++ [new] ∧
    (∀ k, k ≠ "id" →
          node_props new !! k =
          if decide (k ∈ DEFAULT_KEYS ∧ k ≠ "genNumber") then
            if decide (entry_text typed k = "") then None
            else Some (VStr (entry_text typed k))
          else if decide (k = "genNumber" ∧ 1%Z ≠ 0%Z) then
            Some (VInt 1)
          else None) ∧
    (∀ k, k ∈ DEFAULT_MANDATORY_KEYS → k ≠ "id" → entry_text typed k = "" →
          k ≠ "genNumber" → node_props new !! k = None) ∧
    ("created_at" ∉ DEFAULT_KEYS → node_props new !! "created_at" = None).
Proof.
  intros d typed a' d'.
  apply (new_relative_content spouse "p" 1 typed (Some "w") initial a' d d'
           DEFAULT_KEYS DEFAULT_MANDATORY_KEYS).
  - reflexivity.
  - reflexivity.
Defined.

(** Without an id nothing is created.  For a child or a sibling the id is
    built from the [childNumber] entry; when the schema has no such key, or
    the entry is empty, or (for a sibling) no parent is found, and no [id]
    entry holds a text, the form ends with the warning "ID Required".  For
    a spouse the same happens when the id prompt is cancelled or answered
    with nothing.  The store and the view stay as they were. *)
Theorem form_without_id_creates_nothing
    r related_person_id gen_number typed asked_id a d schema mandatory :
  get_schema_details d = Some (schema, mandatory) →
  match r with
  | child =>
      ("id" ∉ schema ∨ entry_text typed "id" = "") ∧
      ("childNumber" ∉ schema ∨ entry_text typed "childNumber" = "")
  | sibling =>
      ("id" ∉ schema ∨ entry_text typed "id" = "") ∧
      ("childNumber" ∉ schema ∨ entry_text typed "childNumber" = "" ∨
       find_relatives related_person_id (Outgoing "CHILD_OF") d = [])
  | spouse => asked_id = None ∨ asked_id = Some ""
  end →
  open_person_form r related_person_id gen_number (Submit typed asked_id) a d =
    (Warning "ID Required", a, d).
Proof.
  intros Hschema Hr. unfold open_person_form, dialog_result. rewrite Hschema. cbv zeta.
  assert (∀ result : gmap string value,
            (result !! "id" = None ∨ result !! "id" = Some (VStr "")) →
            match result !! "id" with
            | None => (Warning "ID Required", a, d)
            | Some new_person_id =>
                if truthy new_person_id then
                  (Success "added", refresh_current_view a,
                   link_new_person r (Some new_person_id) related_person_id
                     (create_person
                        (filter (λ kv : string * value, truthy kv.2 = true ∧ kv.1 ≠ "id")
                           result ∪ {["id" := new_person_id]}) d))
                else (Warning "ID Required", a, d)
            end = (Warning "ID Required", a, d)) as Hwarn.
  { by intros result [-> | ->]. }
  apply Hwarn.
  assert (("id" ∉ schema ∨ entry_text typed "id" = "") →
          entries_result schema gen_number typed !! "id" = None ∨
          entries_result schema gen_number typed !! "id" = Some (VStr "")) as Hentries.
  { intros Hid. rewrite entries_result_lookup.
    destruct (decide ("id" ∈ schema ∧ "id" ≠ "genNumber")) as [[Hin _]|Hout].
    - right. destruct Hid as [?| ->]; done.
    - left. by rewrite decide_False. }
  unfold submit. destruct r.
  - destruct Hr as [Hid Hnum]. apply Hentries in Hid.
    destruct (decide ("childNumber" ∈ form_schema schema)) as [Hin|]; [|done].
    destruct (decide (entry_text typed "childNumber" = "")) as [|Hfull]; [done|].
    apply form_schema_elem in Hin as [Hin _]. by destruct Hnum.
  - destruct Hr as [Hid Hnum]. apply Hentries in Hid.
    destruct (decide ("childNumber" ∈ form_schema schema)) as [Hin|]; [|done].
    destruct (decide (entry_text typed "childNumber" = "")) as [|Hfull]; [done|].
    apply form_schema_elem in Hin as [Hin _].
    destruct Hnum as [?|[?|Hnone]]; [done..|].
    unfold find_relatives in Hnone. by rewrite Hnone.
  - destruct Hr as [-> | ->].
    + left. apply lookup_delete_eq.
    + right. apply lookup_insert_eq.
Qed.

Lemma form_without_id_creates_nothing_witness :
  let d := add_person 1 "p" ∅ (init empty_db) in
  open_person_form child "p" 2 (Submit {["firstName" := "K"]} None) initial d =
    (Warning "ID Required", initial, d) ∧
  open_person_form spouse "p" 1 (Submit {["firstName" := "W"]} None) initial d =
    (Warning "ID Required", initial, d).
Proof.
  intros d. split.
  - apply (form_without_id_creates_nothing child "p" 2 {["firstName" := "K"]} None
             initial d DEFAULT_KEYS DEFAULT_MANDATORY_KEYS); [reflexivity|].
    split; left; by_evaluation.
  - apply (form_without_id_creates_nothing spouse "p" 1 {["firstName" := "W"]} None
             initial d DEFAULT_KEYS DEFAULT_MANDATORY_KEYS); [reflexivity|].
    by left.
Defined.

(** The generation the buttons give to a new relative.  With one Person
    [p] selected, whose stored generation reads as [g] (1 when none is
    stored), the Person that add-child creates gets generation [g + 1] and
    the one add-sibling or add-spouse creates gets generation [g]; a
    generation of 0 is not stored at all. *)
Theorem new_relative_generation int_of_text action a d selected_id p g :
  selected a = Some selected_id →
  match_person (Some (VStr selected_id)) d = [p] →
  match node_props p !! "genNumber" with
  | Some v => py_int int_of_text v
  | None => Some 1%Z
  end = Some g →
  let stored (z : Z) := if decide (z = 0%Z) then None else Some (VInt z) in
  let creates (run : outcome * app * db) (z : Z) :=
    ∀ a' d', run = (Success "added", a', d') →
             ∃ new, persons d' = persons d ++ [new] ∧
                    node_props new !! "genNumber" = stored z in
  creates (add_child int_of_text action a d) (g + 1)%Z ∧
  creates (add_sibling int_of_text action a d) g ∧
  creates (add_spouse int_of_text action a d) g.
Proof.
  intros Hsel Hp Hg stored creates.
  assert (∀ r z, creates (open_person_form r selected_id z action a d) z) as Hform.
  { intros r z a' d'
      (schema & mandatory & typed & asked_id & new & _ & _ & Hps & Hlook)
      %open_person_form_new_props.
    exists new. split; [done|]. rewrite Hlook by done.
    rewrite decide_False by (by intros [_ ?]). unfold stored.
    destruct (decide (z = 0%Z)) as [->|Hz].
    - by rewrite decide_False by (by intros [_ ?]).
    - by rewrite decide_True. }
  split; [|split].
  - unfold add_child. rewrite Hsel, Hp. simpl. rewrite Hg. apply Hform.
  - unfold add_sibling. rewrite Hsel, Hp. simpl. rewrite app_nil_r.
    destruct (match_path_from p (Outgoing "CHILD_OF") d) as [|q qs]; [done|].
    simpl. rewrite Hg. apply Hform.
  - unfold add_spouse. rewrite Hsel, Hp. simpl. rewrite Hg. apply Hform.
Qed.

Lemma new_relative_generation_witness :
  let d :=
    add_person 1 "p" {["genNumber" := VInt 3]}
      (config_round (AddProperty "childNumber" false "") (init empty_db)).2 in
  let a := on_person_select (Some "p") initialize_main_app in
  let action := Submit {["childNumber" := "1"]} (Some "w") in
  let stored (z : Z) := if decide (z = 0%Z) then None else Some (VInt z) in
  let creates (run : outcome * app * db) (z : Z) :=
    ∀ a' d', run = (Success "added", a', d') →
             ∃ new, persons d' = persons d ++ [new] ∧
                    node_props new !! "genNumber" = stored z in
  creates (add_child (λ _, None) action a d) (3 + 1)%Z ∧
  creates (add_sibling (λ _, None) action a d) 3%Z ∧
  creates (add_spouse (λ _, None) action a d) 3%Z.
Proof.
  intros d a action.
  apply (new_relative_generation (λ _, None) action a d "p"
           (default (Node 0 ∅) (persons d !! 0)) 3%Z).
  - reflexivity.
  - reflexivity.
  - reflexivity.
Defined.

Lemma modify_props_lookup schema gen_number typed (ps : gmap string value) k :
  let updated_data := entries_result schema gen_number typed in
  let props_to_set :=
    filter (λ kv : string * value, truthy kv.2 = true) updated_data in
  let props_to_remove :=
    filter (λ kv : string * value, truthy kv.2 = false ∧ kv.1 ≠ "genNumber")
      updated_data in
  filter (λ kv : string * value, kv.1 ∉ dom props_to_remove) (props_to_set ∪ ps) !! k =
  if decide (k ∈ schema ∧ k ≠ "genNumber") then
    if decide (entry_text typed k = "") then None
    else Some (VStr (entry_text typed k))
  else if decide (k = "genNumber" ∧ gen_number ≠ 0%Z) then Some (VInt gen_number)
  else ps !! k.
Proof.
  intros updated_data props_to_set props_to_remove.
  pose proof (entries_result_lookup schema gen_number typed k) as Hres.
  fold updated_data in Hres.
  destruct (decide (k ∈ schema ∧ k ≠ "genNumber")) as [[Hin Hgen]|Hout].
  - destruct (decide (entry_text typed k = "")) as [Hempty|Hfull].
    + apply map_lookup_filter_None. right. intros v _ Hk. apply Hk. simpl.
      apply elem_of_dom. exists (VStr (entry_text typed k)).
      apply map_lookup_filter_Some. split; [done|]. split; [|done].
      simpl. rewrite Hempty. done.
    + assert (truthy (VStr (entry_text typed k)) = true) as Ht by (by apply truthy_text).
      apply map_lookup_filter_Some. split.
      * apply lookup_union_Some_l. by apply map_lookup_filter_Some.
      * simpl. apply not_elem_of_dom, map_lookup_filter_None. right.
        intros v Hv [Hf _]. rewrite Hres in Hv. injection Hv as <-.
        cbn [snd] in Hf. congruence.
  - assert (props_to_remove !! k = None) as Hkeep.
    { apply map_lookup_filter_None.
      destruct (decide (k = "genNumber")) as [->|Hne].
      - right. by intros v _ [_ ?].
      - left. done. }
    destruct (decide (k = "genNumber")) as [->|Hne].
    + destruct (decide (gen_number = 0%Z)) as [Hz|Hnz].
      * rewrite decide_False by tauto.
        rewrite map_lookup_filter. rewrite lookup_union_r.
        -- destruct (ps !! "genNumber") as [v|]; [|done]. simpl.
           rewrite option_guard_True; [done|]. simpl. by apply not_elem_of_dom.
        -- apply map_lookup_filter_None. right. intros v Hv Ht.
           rewrite Hres in Hv. injection Hv as <-. apply truthy_number in Ht. done.
      * rewrite decide_True by done.
        apply map_lookup_filter_Some. split.
        -- apply lookup_union_Some_l. apply map_lookup_filter_Some.
           split; [done|]. by apply truthy_number.
        -- simpl. by apply not_elem_of_dom.
    + rewrite decide_False by tauto.
      rewrite map_lookup_filter. rewrite lookup_union_r.
      * destruct (ps !! k) as [v|]; [|done]. simpl.
        rewrite option_guard_True; [done|]. simpl. by apply not_elem_of_dom.
      * apply map_lookup_filter_None. by left.
Qed.

(** What a submit of the modify form does to the selected Person (to every
    Person with that id): each schema key whose entry holds a text is set
    to that text, each schema key whose entry is empty is removed, whether
    or not the key is mandatory, the generation number is written back, and
    every other property stays.  The other Persons, the relationships and
    the schema are unchanged. *)
Theorem modify_person_sets_and_clears
    int_of_text typed asked_id a d selected_id p others keys mandatory gen_number :
  selected a = Some selected_id →
  match_person (Some (VStr selected_id)) d = p :: others →
  get_schema_details d = Some (keys, mandatory) →
  py_int int_of_text (default (VInt 1) (node_props p !! "genNumber")) = Some gen_number →
  ∃ d',
    modify_person int_of_text (Submit typed asked_id) a d =
      (Success "updated", refresh_current_view a, d') ∧
    rels d' = rels d ∧
    schema d' = schema d ∧
    length (persons d') = length (persons d) ∧
    ∀ i n, persons d !! i = Some n →
      ∃ n', persons d' !! i = Some n' ∧
            node_ref n' = node_ref n ∧
            if decide (has_id (Some (VStr selected_id)) n) then
              ∀ k, node_props n' !! k =
                   if decide (k ∈ keys ∧ k ≠ "genNumber") then
                     if decide (entry_text typed k = "") then None
                     else Some (VStr (entry_text typed k))
                   else if decide (k = "genNumber" ∧ gen_number ≠ 0%Z) then
                     Some (VInt gen_number)
                   else node_props n !! k
            else n' = n.
Proof.
  intros Hsel Hp Hschema Hgen. unfold modify_person.
  rewrite Hsel, Hp, Hschema, Hgen. eexists. split; [done|].
  split; [done|]. split; [done|]. split.
  { rewrite set_where_persons. apply length_fmap. }
  intros i n Hn. rewrite set_where_persons, list_lookup_fmap, Hn. simpl.
  eexists. split; [done|].
  destruct (decide (has_id (Some (VStr selected_id)) n)); [|done].
  split; [done|]. intros k. simpl. apply modify_props_lookup.
Qed.

Lemma modify_person_sets_and_clears_witness :
  let d := add_person 1 "p" {["firstName" := VStr "A"; "lastName" := VStr "B"]}
             (init empty_db) in
  let a := on_person_select (Some "p") initialize_main_app in
  let typed : gmap string string := {["lastName" := "C"]} in
  ∃ d',
    modify_person (λ _, None) (Submit typed None) a d =
      (Success "updated", refresh_current_view a, d') ∧
    rels d' = rels d ∧
    schema d' = schema d ∧
    length (persons d') = length (persons d) ∧
    ∀ i n, persons d !! i = Some n →
      ∃ n', persons d' !! i = Some n' ∧
            node_ref n' = node_ref n ∧
            if decide (has_id (Some (VStr "p")) n) then
              ∀ k, node_props n' !! k =
                   if decide (k ∈ DEFAULT_KEYS ∧ k ≠ "genNumber") then
                     if decide (entry_text typed k = "") then None
                     else Some (VStr (entry_text typed k))
                   else if decide (k = "genNumber" ∧ 1%Z ≠ 0%Z) then
                     Some (VInt 1)
                   else node_props n !! k
            else n' = n.
Proof.
  intros d a typed.
  apply (modify_person_sets_and_clears (λ _, None) typed None a d "p"
           (default (Node 0 ∅) (persons d !! 0)) [] DEFAULT_KEYS
           DEFAULT_MANDATORY_KEYS 1%Z).
  - reflexivity.
  - reflexivity.
  - reflexivity.
  - reflexivity.
Defined.

End form_facts.

(** ** Ids in use, and the relationship menu *)

Section identity_facts.

(** The console [add] never makes a second Person with an id that is in
    use: when no id is the id of two Persons and the properties given do
    not themselves carry an [id], that still holds afterwards. *)
Theorem add_person_keeps_ids_unique now person_id properties d :
  unique_ids d →
  properties !! "id" = None →
  unique_ids (add_person now person_id properties d).
Proof.
  intros Hunique Hno idv. unfold add_person.
  destruct (match_person (Some (VStr person_id)) d) as [|p l] eqn:Hmatch.
  - rewrite match_person_create. case_decide as Hnew.
    + destruct Hnew as [_ Hnew]. unfold node_id in Hnew. simpl in Hnew.
      rewrite lookup_union_r in Hnew by done.
      rewrite lookup_insert_ne, lookup_singleton_eq in Hnew by done.
      injection Hnew as <-. by rewrite Hmatch.
    + rewrite app_nil_r. apply Hunique.
  - rewrite match_person_set_where.
    + rewrite length_fmap. apply Hunique.
    + intros n _ _. by rewrite lookup_union_r.
Qed.

Lemma add_person_keeps_ids_unique_witness :
  unique_ids (add_person 2 "a" {["firstName" := VStr "A"]} (add_person 1 "a" ∅ empty_db)).
Proof.
  apply (add_person_keeps_ids_unique 2 "a" {["firstName" := VStr "A"]}
           (add_person 1 "a" ∅ empty_db)).
  - intros idv. unfold match_person. simpl. rewrite filter_cons, filter_nil.
    case_decide; simpl; lia.
  - reflexivity.
Defined.

Lemma get_input_required_answer strip lines value rest :
  get_input strip true lines = Some (value, rest) →
  ∃ skipped line,
    lines = skipped ++ line :: rest ∧
    value = strip line ∧
    value ≠ "" ∧
    Forall (λ l, strip l = "") skipped.
Proof.
  induction lines as [|line lines IH]; [done|]. simpl.
  destruct (String.eqb (strip line) "") eqn:Hblank; simpl.
  - intros (skipped & line' & -> & -> & Hne & Hsk)%IH.
    exists (line :: skipped), line'. split; [done|]. split; [done|].
    split; [done|]. constructor; [by apply String.eqb_eq|done].
  - intros [= <- <-]. exists [], line. split; [done|]. split; [done|].
    split; [by apply String.eqb_neq|done].
Qed.

(** The relationship menu reads the first Person's id, the second
    Person's id and the relationship type, in that order: each is the next
    line that is not blank, stripped, and [add_relationship] is called with
    them in that order.  Whatever the answers are, no Person and no schema
    key changes and no relationship is removed. *)
Theorem relationship_menu_links strip upper lines d o d' rest :
  relationship_menu strip upper lines d = Some (o, d', rest) →
  ∃ skipped1 line1 skipped2 line2 skipped3 line3,
    lines = skipped1 ++ line1 :: skipped2 ++ line2 :: skipped3 ++ line3 :: rest ∧
    Forall (λ l, strip l = "") (skipped1 ++ skipped2 ++ skipped3) ∧
    strip line1 ≠ "" ∧ strip line2 ≠ "" ∧ strip line3 ≠ "" ∧
    (o, d') = add_relationship upper (strip line1) (strip line2) (strip line3) d ∧
    persons d' = persons d ∧
    schema d' = schema d ∧
    ∃ new, rels d' = rels d ++ new.
Proof.
  unfold relationship_menu.
  destruct (get_input strip true lines) as [[id1 rest1]|] eqn:H1; [|done].
  destruct (get_input strip true rest1) as [[id2 rest2]|] eqn:H2; [|done].
  destruct (get_input strip true rest2) as [[rel_type rest3]|] eqn:H3; [|done].
  intros [= <- <- <-].
  apply get_input_required_answer in H1 as (skipped1 & line1 & -> & -> & Hne1 & Hsk1).
  apply get_input_required_answer in H2 as (skipped2 & line2 & -> & -> & Hne2 & Hsk2).
  apply get_input_required_answer in H3 as (skipped3 & line3 & -> & -> & Hne3 & Hsk3).
  exists skipped1, line1, skipped2, line2, skipped3, line3.
  split; [done|]. split; [by repeat apply Forall_app_2|].
  split; [done|]. split; [done|]. split; [done|].
  split; [by destruct (add_relationship upper _ _ _ d)|].
  unfold add_relationship. case_decide; simpl.
  - split; [done|]. split; [done|]. apply foldl_merge_rel_extends.
  - split; [done|]. split; [done|]. exists []. by rewrite app_nil_r.
Qed.

Lemma relationship_menu_links_witness :
  let d := add_person 2 "b" ∅ (add_person 1 "a" ∅ empty_db) in
  let lines := [" a "; ""; "b"; "child_of"; "next"] in
  let d' := (add_relationship ascii_upper "a" "b" "child_of" d).2 in
  ∃ skipped1 line1 skipped2 line2 skipped3 line3,
    lines = skipped1 ++ line1 :: skipped2 ++ line2 :: skipped3 ++ line3 :: ["next"] ∧
    Forall (λ l, ascii_strip l = "") (skipped1 ++ skipped2 ++ skipped3) ∧
    ascii_strip line1 ≠ "" ∧ ascii_strip line2 ≠ "" ∧ ascii_strip line3 ≠ "" ∧
    (Success "linked", d') =
      add_relationship ascii_upper (ascii_strip line1) (ascii_strip line2)
        (ascii_strip line3) d ∧
    persons d' = persons d ∧
    schema d' = schema d ∧
    ∃ new, rels d' = rels d ++ new.
Proof.
  intros d lines d'.
  apply (relationship_menu_links ascii_strip ascii_upper lines d (Success "linked") d'
           ["next"]).
  reflexivity.
Defined.

End identity_facts.
